(** * infra-core: the configuration tree builder, the manager strategy
      and the concurrent command runner

    A shallow embedding of

    - [src/docker/infrastructure/adapters/yaml/yaml_builder.py]
      ([FluentYAMLBuilder]),
    - [src/docker/infrastructure/adapters/repositories/netplan_repository.py]
      ([PortNetplanRepositoryYaml.create]),
    - [src/docker/domain/command/command_builder/strategies/manager_strategy.py]
      ([ManagerStrategy.categorize]),
    - [src/docker/infrastructure/adapters/ui/command_runner_ui.py]
      ([CommandRunnerUI.run]).

    Python objects that are mutated in place are modelled by explicit state
    passing.  A method either returns or raises; in both cases the state of the
    receiver at that moment is part of the outcome. *)

From Stdlib Require Import List String Ascii ZArith Lia Bool Arith Permutation.
Import ListNotations.
Open Scope string_scope.
Open Scope list_scope.
Set Warnings "-register-all".

(* ================================================================== *)
(** ** Python values, exceptions and insertion-ordered dictionaries    *)
(* ================================================================== *)

(** Exceptions raised by the modelled code.  [KeyError] and [ValueError]
    carry the message the source builds with an f-string. *)
Inductive exn : Type :=
| KeyError (msg : string)
| ValueError (msg : string)
| AttributeError
| StopIteration
| IndexError
| YAMLError.

(** Outcome of a method on a mutable receiver of state [S]: the method
    returns, or it raises; [s] is the receiver when control leaves. *)
Inductive outcome (S : Type) : Type :=
| Return (s : S)
| Raise (e : exn) (s : S).
Arguments Return {S} s.
Arguments Raise {S} e s.

Definition bind {S : Type} (o : outcome S) (k : S -> outcome S) : outcome S :=
  match o with
  | Return s => k s
  | Raise e s => Raise e s
  end.

Notation "o >>= k" := (bind o k) (at level 50, left associativity).

Definition state_of {S : Type} (o : outcome S) : S :=
  match o with Return s => s | Raise _ s => s end.

Definition returned {S : Type} (o : outcome S) : bool :=
  match o with Return _ => true | Raise _ _ => false end.

(** A Python [dict]: keys are unique and keep their insertion order;
    assigning to an existing key keeps its position. *)
Section Dict.
Context {K V : Type} (eqb : K -> K -> bool).

Definition dict : Type := list (K * V).

Fixpoint dict_get (k : K) (d : dict) : option V :=
  match d with
  | [] => None
  | (k', v) :: d' => if eqb k k' then Some v else dict_get k d'
  end.

Fixpoint dict_set (k : K) (v : V) (d : dict) : dict :=
  match d with
  | [] => [(k, v)]
  | (k', v') :: d' =>
      if eqb k k' then (k', v) :: d' else (k', v') :: dict_set k v d'
  end.

Definition dict_keys (d : dict) : list K := map fst d.

(** [d.setdefault(k, v)] *)
Definition dict_setdefault (k : K) (v : V) (d : dict) : dict :=
  match dict_get k d with
  | Some _ => d
  | None => dict_set k v d
  end.

End Dict.

Arguments dict K V : clear implicits.

(** Values that ruamel.yaml hands to, and takes from, the builder:
    scalars, [list]s (CommentedSeq) and [dict]s (CommentedMap) with string
    keys.  Floats are left out. *)
Inductive scalar : Type :=
| SNone
| SBool (b : bool)
| SInt (z : Z)
| SStr (s : string).

Inductive pyvalue : Type :=
| DScalar (s : scalar)
| DList (l : list pyvalue)
| DMap (m : list (string * pyvalue)).

(** Python truthiness of a value, as tested by [yaml.load(...) or {}]. *)
Definition truthy (d : pyvalue) : bool :=
  match d with
  | DScalar SNone => false
  | DScalar (SBool b) => b
  | DScalar (SInt z) => negb (z =? 0)%Z
  | DScalar (SStr s) => negb (s =? "")
  | DList l => match l with [] => false | _ => true end
  | DMap m => match m with [] => false | _ => true end
  end.

(** ['/'.join(xs)] *)
Fixpoint join (sep : string) (xs : list string) : string :=
  match xs with
  | [] => ""
  | [x] => x
  | x :: xs' => (x ++ sep ++ join sep xs')%string
  end.

(* ================================================================== *)
(** ** The configuration tree                                          *)
(* ================================================================== *)

(** What a node holds in its [value] attribute: [None], a raw list, or a
    [YamlValue] wrapper. *)
Inductive node_value : Type :=
| VNone
| VList (l : list pyvalue)
| VYaml (d : pyvalue).

(** A [YAMLNode] with its subtree.  The [parent] back-reference of the
    source is the position of the node in the tree: the cursor of the
    builder is the list of child indices that leads from the root to it,
    and the parent of a node is reached by dropping the last index. *)
Inductive YAMLNode : Type :=
| Node (name : string) (value : node_value) (children : list YAMLNode).

Definition name (n : YAMLNode) : string :=
  match n with Node nm _ _ => nm end.
Definition value (n : YAMLNode) : node_value :=
  match n with Node _ v _ => v end.
Definition children (n : YAMLNode) : list YAMLNode :=
  match n with Node _ _ cs => cs end.

Definition path : Type := list nat.

(** Modelled from the spec: the constructor of [YAMLNode] and the class
    [YamlValue] (yaml_node.py and yaml_value.py are not among the sources).
    A node value is absent, a scalar or an ordered sequence; a scalar is
    kept in a [YamlValue] whose [to_dict()] gives the scalar back, a
    sequence is kept as the list itself and is emitted as it is. *)
Definition store (v : pyvalue) : node_value :=
  match v with
  | DScalar SNone => VNone
  | DList l => VList l
  | _ => VYaml v
  end.

Definition new_node (nm : string) (v : pyvalue) : YAMLNode := Node nm (store v) [].

(** Modelled from the spec: [YAMLNode.add_child] appends a child under the
    node; children keep their insertion order. *)
Definition node_add_child (nm : string) (v : pyvalue) (n : YAMLNode) : YAMLNode :=
  Node (name n) (value n) (children n ++ [new_node nm v]).

(** Modelled from the spec: [YAMLNode.find_child] matches by child name;
    the first child of that name is returned, here with its index. *)
Fixpoint find_child_from (i : nat) (key : string) (cs : list YAMLNode)
  : option (nat * YAMLNode) :=
  match cs with
  | [] => None
  | c :: cs' => if name c =? key then Some (i, c) else find_child_from (S i) key cs'
  end.

Definition find_child (key : string) (n : YAMLNode) : option (nat * YAMLNode) :=
  find_child_from 0 key (children n).

Definition set_value (v : node_value) (n : YAMLNode) : YAMLNode :=
  Node (name n) v (children n).

(** The node at a position, and the in-place update of the node at a
    position. *)
Fixpoint get (t : YAMLNode) (p : path) : option YAMLNode :=
  match p with
  | [] => Some t
  | i :: q => match nth_error (children t) i with
              | Some c => get c q
              | None => None
              end
  end.

Fixpoint list_update {A : Type} (i : nat) (f : A -> A) (l : list A) : list A :=
  match l, i with
  | [], _ => []
  | x :: l', O => f x :: l'
  | x :: l', S j => x :: list_update j f l'
  end.

Fixpoint update (f : YAMLNode -> YAMLNode) (p : path) (t : YAMLNode) : YAMLNode :=
  match p with
  | [] => f t
  | i :: q => Node (name t) (value t) (list_update i (update f q) (children t))
  end.

(** [node.parent]: the position of the parent, [None] at the root. *)
Definition parent (p : path) : option path :=
  match p with
  | [] => None
  | _ => Some (removelast p)
  end.

(* ================================================================== *)
(** ** FluentYAMLBuilder                                               *)
(* ================================================================== *)

Record FluentYAMLBuilder : Type := mkBuilder {
  root : option YAMLNode;
  current : option path
}.

(** [FluentYAMLBuilder(root_name)]; the empty name is falsy. *)
Definition init (root_name : option string) : FluentYAMLBuilder :=
  match root_name with
  | Some nm =>
      if nm =? "" then mkBuilder None None
      else mkBuilder (Some (new_node nm (DScalar SNone))) (Some [])
  | None => mkBuilder None None
  end.

(** The node under the cursor; [None] when there is no cursor. *)
Definition current_node (b : FluentYAMLBuilder) : option YAMLNode :=
  match root b, current b with
  | Some t, Some p => get t p
  | _, _ => None
  end.

Definition add_child (nm : string) (v : pyvalue) (stay : bool) (b : FluentYAMLBuilder)
  : outcome FluentYAMLBuilder :=
  match root b with
  | None => Return (mkBuilder (Some (new_node nm v)) (Some []))
  | Some t =>
      match current b with
      | None => Raise AttributeError b
      | Some p =>
          match get t p with
          | None => Raise AttributeError b
          | Some n =>
              Return (mkBuilder
                        (Some (update (node_add_child nm v) p t))
                        (Some (if stay then p else p ++ [List.length (children n)])))
          end
      end
  end.

(** The loop of [navigate_to]: [node] is the node reached so far, [here]
    its position, [traversed_path] the keys followed so far. *)
Fixpoint navigate_loop (node : YAMLNode) (here : path) (traversed_path : list string)
         (keys : list string) : exn + path :=
  match keys with
  | [] => inr here
  | key :: rest =>
      match find_child key node with
      | Some (i, child) =>
          navigate_loop child (here ++ [i]) (traversed_path ++ [key]) rest
      | None =>
          inl (KeyError ("Path not found at segment '" ++ key
                         ++ "' after traversing: " ++ join "/" traversed_path)%string)
      end
  end.

Definition navigate_to (keys : list string) (b : FluentYAMLBuilder)
  : outcome FluentYAMLBuilder :=
  match root b with
  | None =>
      match keys with
      | [] => Return (mkBuilder None None)
      | _ => Raise AttributeError b
      end
  | Some t =>
      match navigate_loop t [] [] keys with
      | inr p => Return (mkBuilder (Some t) (Some p))
      | inl e => Raise e b
      end
  end.

(** [recursive_search] of [navigate_to_recursively]; the recursive call
    passes the enclosing [name], the first test uses the parameter. *)
Fixpoint recursive_search (nm : string) (node : YAMLNode) (name_rc : string)
  : option path :=
  match node with
  | Node n _ cs =>
      if n =? name_rc then Some []
      else
        (fix loop (i : nat) (cs : list YAMLNode) : option path :=
           match cs with
           | [] => None
           | child :: cs' =>
               match recursive_search nm child nm with
               | Some p => Some (i :: p)
               | None => loop (S i) cs'
               end
           end) 0 cs
  end.

Definition navigate_to_recursively (nm : string) (b : FluentYAMLBuilder)
  : outcome FluentYAMLBuilder :=
  match root b with
  | None => Raise AttributeError b
  | Some t =>
      match recursive_search nm t nm with
      | Some p => Return (mkBuilder (Some t) (Some p))
      | None => Raise (KeyError ("Node '" ++ nm ++ "' not found in the tree.")%string) b
      end
  end.

(** [delete_current].  [YAMLNode.remove_child] is not among the sources;
    it is a method of the parent that receives the name of the cursor
    node and nothing else, and is taken as a parameter. *)
Definition delete_current (remove_child : string -> YAMLNode -> YAMLNode)
           (b : FluentYAMLBuilder) : outcome FluentYAMLBuilder :=
  match root b, current b with
  | Some t, Some p =>
      match get t p with
      | None => Raise AttributeError b
      | Some cur =>
          match parent p with
          | Some pp =>
              Return (mkBuilder (Some (update (remove_child (name cur)) pp t)) (Some pp))
          | None => Raise (ValueError "Cannot delete root node") b
          end
      end
  | _, _ => Raise AttributeError b
  end.

Definition insert_at_current (nm : string) (v : pyvalue) (b : FluentYAMLBuilder)
  : outcome FluentYAMLBuilder :=
  match root b, current b with
  | Some t, Some p =>
      match get t p with
      | None => Raise AttributeError b
      | Some _ => Return (mkBuilder (Some (update (node_add_child nm v) p t)) (Some p))
      end
  | _, _ => Raise AttributeError b
  end.

Definition up (b : FluentYAMLBuilder) : outcome FluentYAMLBuilder :=
  match current b with
  | None => Raise AttributeError b
  | Some p =>
      match parent p with
      | Some pp => Return (mkBuilder (root b) (Some pp))
      | None => Return b
      end
  end.

(** One round of the loop of [to_dict]: the converted [v] of a child named
    [key] enters [result].  A value already present that is a list is
    appended to, any other value is promoted to a two-element list. *)
Definition merge_child (key : string) (v : pyvalue) (result : dict string pyvalue)
  : dict string pyvalue :=
  match dict_get String.eqb key result with
  | Some (DList l) => dict_set String.eqb key (DList (l ++ [v])) result
  | Some old => dict_set String.eqb key (DList [old; v]) result
  | None => dict_set String.eqb key v result
  end.

(** [to_dict(node)] returns the one-entry dict [{key: value}]; the entry is
    the pair computed here.  The source appends with [result[key].append],
    on the list object that sits in [result]; the map that is returned is
    the one computed here. *)
Fixpoint to_dict (node : YAMLNode) : string * pyvalue :=
  match node with
  | Node nm v cs =>
      match v with
      | VList l => (nm, DList l)
      | VYaml d => (nm, d)
      | VNone =>
          (nm, DMap ((fix loop (cs : list YAMLNode) (result : dict string pyvalue)
                        : dict string pyvalue :=
                        match cs with
                        | [] => result
                        | child :: cs' =>
                            let (key, value) := to_dict child in
                            loop cs' (merge_child key value result)
                        end) cs []))
      end
  end.

(** The loop of [to_dict] over the children, from a given [result]. *)
Fixpoint to_dict_children (cs : list YAMLNode) (result : dict string pyvalue)
  : dict string pyvalue :=
  match cs with
  | [] => result
  | child :: cs' =>
      let (key, value) := to_dict child in
      to_dict_children cs' (merge_child key value result)
  end.

(** [build()]: the dict of the root; without a root [node.value] fails. *)
Definition build (b : FluentYAMLBuilder) : exn + pyvalue :=
  match root b with
  | Some t => inr (DMap [to_dict t])
  | None => inl AttributeError
  end.

Definition set_current_value (v : node_value) (b : FluentYAMLBuilder)
  : outcome FluentYAMLBuilder :=
  match root b, current b with
  | Some t, Some p =>
      match get t p with
      | Some _ => Return (mkBuilder (Some (update (set_value v) p t)) (Some p))
      | None => Raise AttributeError b
      end
  | _, _ => Raise AttributeError b
  end.

(** [_parse_dict_to_tree]: every key is added with [stay=True], so the
    cursor does not enter the new child before the recursive call. *)
Fixpoint _parse_dict_to_tree (d : pyvalue) (b : FluentYAMLBuilder)
  : outcome FluentYAMLBuilder :=
  match d with
  | DMap m =>
      (fix items (m : list (string * pyvalue)) (b : FluentYAMLBuilder)
         : outcome FluentYAMLBuilder :=
         match m with
         | [] => Return b
         | (key, v) :: m' =>
             match add_child key (DScalar SNone) true b with
             | Raise e s => Raise e s
             | Return b1 =>
                 match _parse_dict_to_tree v b1 with
                 | Raise e s => Raise e s
                 | Return b2 =>
                     match up b2 with
                     | Raise e s => Raise e s
                     | Return b3 => items m' b3
                     end
                 end
             end
         end) m b
  | DList l => set_current_value (VList l) b
  | DScalar _ => set_current_value (VYaml d) b
  end.

(** [load_from_string] after [yaml.load]: [loaded] is what the parser
    returned for the text. *)
Definition load_from_data (loaded : pyvalue) (b : FluentYAMLBuilder)
  : outcome FluentYAMLBuilder :=
  let d := if truthy loaded then loaded else DMap [] in
  match d with
  | DMap m =>
      match m with
      | [] => Raise StopIteration b
      | (root_key, v) :: _ =>
          match root b with
          | None =>
              add_child root_key (DScalar SNone) true b >>= _parse_dict_to_tree v
          | Some r =>
              if negb (name r =? root_key)
              then Raise (ValueError ("Root mismatch! Expected '" ++ name r
                                      ++ "', but found '" ++ root_key
                                      ++ "' in YAML.")%string) b
              else _parse_dict_to_tree v b
          end
      end
  | _ => Raise (ValueError "Invalid YAML format, expected a dictionary with a root key.") b
  end.

(** ruamel.yaml is an external library: its dumper and its parser are
    parameters.  The parser gives [None] when it rejects the text. *)
Section Yaml.
Variable yaml_dump : pyvalue -> string.
Variable yaml_load : string -> option pyvalue.

Definition to_yaml (b : FluentYAMLBuilder) : exn + string :=
  match build b with
  | inr d => inr (yaml_dump d)
  | inl e => inl e
  end.

Definition load_from_string (yaml_content : string) (b : FluentYAMLBuilder)
  : outcome FluentYAMLBuilder :=
  match yaml_load yaml_content with
  | Some loaded => load_from_data loaded b
  | None => Raise YAMLError b
  end.
End Yaml.

(* ================================================================== *)
(** ** PortNetplanRepositoryYaml                                       *)
(* ================================================================== *)

(** [domain.network.network.Network] is not among the sources; [create]
    reads [data.ip_address.ip_address] and [data.gateway.ip_address]. *)
Record IpValue : Type := mkIp { ip_address : string }.
Record Network : Type := mkNetwork { net_ip_address : IpValue; net_gateway : IpValue }.

(** The builder of a new repository: [FluentYAMLBuilder("network")]. *)
Definition netplan_builder : FluentYAMLBuilder := init (Some "network").

(** The chain of [add_child] calls of [create]. *)
Definition create_chain (data : Network) (builder : FluentYAMLBuilder)
  : outcome FluentYAMLBuilder :=
  Return builder
  >>= add_child "version" (DScalar (SInt 2)) true
  >>= add_child "renderer" (DScalar (SStr "networkd")) true
  >>= add_child "ethernets" (DScalar SNone) false
  >>= add_child "ens3" (DScalar SNone) false
  >>= add_child "dhcp4" (DScalar (SStr "no")) true
  >>= add_child "addresses"
        (DList [DScalar (SStr (ip_address (net_ip_address data) ++ "/24")%string)]) true
  >>= add_child "routes"
        (DList [DMap [("to", DScalar (SStr "0.0.0.0/0"));
                      ("via", DScalar (SStr (ip_address (net_gateway data))))]]) true
  >>= add_child "nameservers" (DScalar SNone) false
  >>= add_child "addresses"
        (DList [DScalar (SStr "8.8.8.8"); DScalar (SStr "8.8.4.4")]) true.

(** [create(data)]: what the call returns, and the builder it leaves. *)
Definition create (data : Network) (builder : FluentYAMLBuilder)
  : (exn + pyvalue) * FluentYAMLBuilder :=
  match create_chain data builder with
  | Return b => (build b, b)
  | Raise e b => (inl e, b)
  end.

(* ================================================================== *)
(** ** ManagerStrategy                                                 *)
(* ================================================================== *)

Inductive VmType : Type := MANAGER | WORKER.

Definition VmType_eqb (a b : VmType) : bool :=
  match a, b with
  | MANAGER, MANAGER | WORKER, WORKER => true
  | _, _ => false
  end.

Record VmEntity : Type := mkVm {
  vm_instance : string;
  vm_type : VmType;
  ipaddress : string;
  gateway : string;
  memory : string;
  disk : string
}.

(** The port [PortVmRepository], as far as [categorize] uses it. *)
Record PortVmRepository : Type := mkVmRepository {
  find_vm_instances_by_type : VmType -> list string
}.

(** Modelled from the spec: the VM directory, "lookup of known VM
    instances by role"; the repository adapter is not among the sources. *)
Definition vm_directory (vms : list VmEntity) : PortVmRepository :=
  mkVmRepository
    (fun ty => map vm_instance (filter (fun vm => VmType_eqb (vm_type vm) ty) vms)).

Module CommandEntity.
(** The fields of [CommandEntity] that [categorize] reads. *)
Record t : Type := mk {
  index : Z;
  description : string;
  command : string;
  runner : string
}.
End CommandEntity.

Module ExecutableCommandEntity.
Record t (Runner : Type) : Type := mk {
  vm_instance_name : string;
  description : string;
  command : string;
  runner : Runner
}.
Arguments mk {Runner}.
Arguments vm_instance_name {Runner}.
Arguments description {Runner}.
Arguments command {Runner}.
Arguments runner {Runner}.
End ExecutableCommandEntity.

Definition lbrace : ascii := "{"%char.
Definition rbrace : ascii := "}"%char.

(** [s.format(vm_instance=...)] for format strings whose replacement
    fields carry no conversion, format specification, attribute or index
    and are not positional (a number):
    doubled braces are literal braces, [{vm_instance}] is replaced, any
    other field and any unbalanced brace raises.  [field] is the text of
    the replacement field being read, if one is open. *)
Fixpoint format_from (field : option string) (s : string) (vm_instance : string)
  : exn + string :=
  match s with
  | EmptyString =>
      match field with
      | None => inr EmptyString
      | Some _ => inl (ValueError "expected '}' before end of string")
      end
  | String c s' =>
      match field with
      | Some f =>
          if Ascii.eqb c rbrace then
            if f =? "vm_instance" then
              match format_from None s' vm_instance with
              | inr out => inr (vm_instance ++ out)%string
              | inl e => inl e
              end
            else if f =? "" then inl IndexError
            else inl (KeyError f)
          else if Ascii.eqb c lbrace then
            inl (ValueError "unexpected '{' in field name")
          else format_from (Some (f ++ String c EmptyString)%string) s' vm_instance
      | None =>
          if Ascii.eqb c lbrace then
            match s' with
            | String c' s'' =>
                if Ascii.eqb c' lbrace then
                  match format_from None s'' vm_instance with
                  | inr out => inr (String lbrace out)
                  | inl e => inl e
                  end
                else format_from (Some EmptyString) s' vm_instance
            | EmptyString => inl (ValueError "Single '{' encountered in format string")
            end
          else if Ascii.eqb c rbrace then
            match s' with
            | String c' s'' =>
                if Ascii.eqb c' rbrace then
                  match format_from None s'' vm_instance with
                  | inr out => inr (String rbrace out)
                  | inl e => inl e
                  end
                else inl (ValueError "Single '}' encountered in format string")
            | EmptyString => inl (ValueError "Single '}' encountered in format string")
            end
          else
            match format_from None s' vm_instance with
            | inr out => inr (String c out)
            | inl e => inl e
            end
      end
  end.

Definition format_vm_instance (s vm_instance : string) : exn + string :=
  format_from None s vm_instance.

Section ManagerStrategy.
(** What lies outside the sources: the runner handles, the enum
    [CommandRunnerType] with its [get_enum_from_value], the runner
    factory, and Python's [str.format]. *)
Variable Runner : Type.
Variable CommandRunnerType : Type.
Variable get_enum_from_value : string -> exn + CommandRunnerType.
Variable str_format : string -> string -> exn + string.

Record CommandRunnerFactory : Type := mkFactory {
  get_runner : CommandRunnerType -> exn + Runner
}.

Record ManagerStrategy : Type := mkStrategy {
  strategy_vm_type : VmType;
  vm_repository : PortVmRepository;
  command_runner_factory : CommandRunnerFactory
}.

(** The execution plan [Dict[str, Dict[int, ExecutableCommandEntity]]]. *)
Definition plan : Type := dict string (dict Z (ExecutableCommandEntity.t Runner)).

(** [executable_commands[vm][idx] = entity] *)
Definition plan_set (vm : string) (idx : Z) (e : ExecutableCommandEntity.t Runner)
           (p : plan) : exn + plan :=
  match dict_get String.eqb vm p with
  | Some row => inr (dict_set String.eqb vm (dict_set Z.eqb idx e row) p)
  | None => inl (KeyError vm)
  end.

Definition plan_get (vm : string) (idx : Z) (p : plan)
  : option (ExecutableCommandEntity.t Runner) :=
  match dict_get String.eqb vm p with
  | Some row => dict_get Z.eqb idx row
  | None => None
  end.

(** [categorize]: the right-hand side of the assignment is evaluated
    after [setdefault], in the order of its keyword arguments. *)
Definition categorize (self : ManagerStrategy) (command : CommandEntity.t)
           (executable_commands : plan) : outcome plan :=
  let vm_instance_names :=
    find_vm_instances_by_type (vm_repository self) (strategy_vm_type self) in
  match vm_instance_names with
  | [vm_instance_name] =>
      let p1 := dict_setdefault String.eqb vm_instance_name [] executable_commands in
      match str_format (CommandEntity.description command) vm_instance_name with
      | inl e => Raise e p1
      | inr d =>
          match str_format (CommandEntity.command command) vm_instance_name with
          | inl e => Raise e p1
          | inr c =>
              match get_enum_from_value (CommandEntity.runner command) with
              | inl e => Raise e p1
              | inr kind =>
                  match get_runner (command_runner_factory self) kind with
                  | inl e => Raise e p1
                  | inr r =>
                      match plan_set vm_instance_name (CommandEntity.index command)
                              (ExecutableCommandEntity.mk vm_instance_name d c r) p1 with
                      | inr p2 => Return p2
                      | inl e => Raise e p1
                      end
                  end
              end
          end
      end
  | _ => Return executable_commands
  end.
End ManagerStrategy.

Arguments get_runner {Runner CommandRunnerType}.
Arguments mkFactory {Runner CommandRunnerType}.
Arguments mkStrategy {Runner CommandRunnerType}.
Arguments strategy_vm_type {Runner CommandRunnerType}.
Arguments vm_repository {Runner CommandRunnerType}.
Arguments command_runner_factory {Runner CommandRunnerType}.
Arguments plan_set {Runner}.
Arguments plan_get {Runner}.
Arguments categorize {Runner CommandRunnerType}.

(* ================================================================== *)
(** ** CommandRunnerUI                                                 *)
(* ================================================================== *)

(** The keyword arguments of [ui.update_status]. *)
Record StatusUpdate : Type := mkStatus {
  task : string;
  step : string;
  result : string;
  instance : string
}.

Section CommandRunnerUI.
(** [CommandExecuter] and the UI lie outside the sources.  A coroutine
    of [CommandExecuter.execute] is the sequence of actions it performs,
    one per slot the event loop gives it, and the way it ends: with a
    value, or with an exception. *)
Variable Runner : Type.
Variable Action : Type.
Variable Value : Type.
Variable Failure : Type.

Record Coroutine : Type := mkCoroutine {
  actions : list Action;
  completion : Value + Failure
}.

Variable execute : dict Z (ExecutableCommandEntity.t Runner) -> Coroutine.

Record CommandRunnerUI : Type := mkRunnerUI {
  command_list : plan Runner;
  instances : list string
}.

(** [CommandRunnerUI(command_list)] *)
Definition runner_init (command_list : plan Runner) : CommandRunnerUI :=
  mkRunnerUI command_list (dict_keys command_list).

(** What [run] does, as seen from outside, in the order it happens. *)
Inductive event : Type :=
| StartInThread
| TaskAction (i : nat) (a : Action)
| UpdateStatus (u : StatusUpdate)
| AwaitUiThread.

(** The list comprehension of [run]: one task per instance, in the
    order of [self.instances]; [self.command_list[vm]] raises on a
    missing key. *)
Fixpoint create_tasks (command_list : plan Runner) (instances : list string)
  : exn + list Coroutine :=
  match instances with
  | [] => inr []
  | vm :: rest =>
      match dict_get String.eqb vm command_list with
      | None => inl (KeyError vm)
      | Some commands =>
          match create_tasks command_list rest with
          | inr tasks => inr (execute commands :: tasks)
          | inl e => inl e
          end
      end
  end.

(** The actions still pending, task after task, from task number [i]. *)
Fixpoint drain (i : nat) (pending : list (list Action)) : list event :=
  match pending with
  | [] => []
  | acts :: pending' => map (TaskAction i) acts ++ drain (S i) pending'
  end.

(** The event loop while [gather] is awaited.  [schedule] names the task
    that is resumed in each slot; a slot given to a task that has ended
    is lost; when the schedule is used up the tasks still pending run to
    their end one after the other.  No task is cancelled. *)
Fixpoint event_loop (schedule : list nat) (pending : list (list Action))
  : list event :=
  match schedule with
  | [] => drain 0 pending
  | i :: schedule' =>
      match nth_error pending i with
      | Some (a :: rest) =>
          TaskAction i a :: event_loop schedule' (list_update i (fun _ => rest) pending)
      | _ => event_loop schedule' pending
      end
  end.

(** [asyncio.gather] over the tasks with [return_exceptions=True]: every task runs to
    its end; the results come in the order of the tasks, an exception
    taking the place of the value of the task that raised it. *)
Definition gather (schedule : list nat) (tasks : list Coroutine)
  : list event * list (Value + Failure) :=
  (event_loop schedule (map actions tasks), map completion tasks).

Definition terminal_status : StatusUpdate :=
  mkStatus "finished" "execution" "success" "all".

Definition run (schedule : list nat) (self : CommandRunnerUI)
  : list event * (exn + list (Value + Failure)) :=
  match create_tasks (command_list self) (instances self) with
  | inl e => ([StartInThread], inl e)
  | inr tasks =>
      let (body, results) := gather schedule tasks in
      (StartInThread :: body ++ [UpdateStatus terminal_status; AwaitUiThread],
       inr results)
  end.

(** The actions of task [i] in a trace, in the order they occur. *)
Fixpoint actions_of (i : nat) (trace : list event) : list Action :=
  match trace with
  | [] => []
  | TaskAction j a :: trace' =>
      if Nat.eqb i j then a :: actions_of i trace' else actions_of i trace'
  | _ :: trace' => actions_of i trace'
  end.

(** The status updates that [run] itself emits in a trace. *)
Fixpoint status_updates (trace : list event) : list StatusUpdate :=
  match trace with
  | [] => []
  | UpdateStatus u :: trace' => u :: status_updates trace'
  | _ :: trace' => status_updates trace'
  end.
End CommandRunnerUI.

Arguments mkCoroutine {Action Value Failure}.
Arguments actions {Action Value Failure}.
Arguments completion {Action Value Failure}.
Arguments mkRunnerUI {Runner}.
Arguments command_list {Runner}.
Arguments instances {Runner}.
Arguments runner_init {Runner}.
Arguments create_tasks {Runner Action Value Failure}.
Arguments drain {Action}.
Arguments event_loop {Action}.
Arguments gather {Action Value Failure}.
Arguments run {Runner Action Value Failure}.
Arguments actions_of {Action}.
Arguments status_updates {Action}.
Arguments StartInThread {Action}.
Arguments TaskAction {Action} i a.
Arguments UpdateStatus {Action} u.
Arguments AwaitUiThread {Action}.

(* ================================================================== *)
(** ** Notions the properties are stated with                          *)
(* ================================================================== *)

(** [resolves t keys p]: following the segments [keys] from [t], each
    time into the first child that bears the segment as its name, leads
    to the position [p]. *)
Inductive resolves : YAMLNode -> list string -> path -> Prop :=
| resolves_nil : forall t, resolves t [] []
| resolves_cons : forall t key keys i c p,
    nth_error (children t) i = Some c ->
    name c = key ->
    (forall j c', j < i -> nth_error (children t) j = Some c' -> name c' <> key) ->
    resolves c keys p ->
    resolves t (key :: keys) (i :: p).

Definition no_child_named (key : string) (n : YAMLNode) : Prop :=
  forall c, In c (children n) -> name c <> key.

(** The nodes of a tree with their positions, in pre-order: a node comes
    before its subtree, and the whole subtree of a child before the next
    child. *)
Fixpoint preorder (t : YAMLNode) : list (path * YAMLNode) :=
  match t with
  | Node _ _ cs =>
      ([], t) ::
      (fix go (i : nat) (cs : list YAMLNode) : list (path * YAMLNode) :=
         match cs with
         | [] => []
         | c :: cs' =>
             map (fun pn => (i :: fst pn, snd pn)) (preorder c) ++ go (S i) cs'
         end) 0 cs
  end.

Fixpoint preorder_children (i : nat) (cs : list YAMLNode) : list (path * YAMLNode) :=
  match cs with
  | [] => []
  | c :: cs' =>
      map (fun pn => (i :: fst pn, snd pn)) (preorder c) ++ preorder_children (S i) cs'
  end.

Definition named (nm : string) (pn : path * YAMLNode) : bool := name (snd pn) =? nm.

(** The first node of that name in pre-order. *)
Definition first_named (nm : string) (t : YAMLNode) : option (path * YAMLNode) :=
  find (named nm) (preorder t).

(** The converted values of the children that bear the name [key], in the
    order of the children. *)
Fixpoint values_named (key : string) (cs : list YAMLNode) : list pyvalue :=
  match cs with
  | [] => []
  | c :: cs' =>
      if fst (to_dict c) =? key then snd (to_dict c) :: values_named key cs'
      else values_named key cs'
  end.

Definition is_list (d : pyvalue) : bool :=
  match d with DList _ => true | _ => false end.

(** The list without its element number [i]. *)
Fixpoint remove_nth {A : Type} (i : nat) (l : list A) : list A :=
  match l, i with
  | [], _ => []
  | _ :: l', O => l'
  | x :: l', S j => x :: remove_nth j l'
  end.

(** A builder whose cursor is a node of its tree. *)
Definition cursor_in_tree (b : FluentYAMLBuilder) : Prop :=
  exists t p n, root b = Some t /\ current b = Some p /\ get t p = Some n.

(** The loop of [recursive_search] over the children, from child number [i]. *)
Definition search_children (nm : string) : nat -> list YAMLNode -> option path :=
  fix loop (i : nat) (cs : list YAMLNode) : option path :=
    match cs with
    | [] => None
    | child :: cs' =>
        match recursive_search nm child nm with
        | Some p => Some (i :: p)
        | None => loop (S i) cs'
        end
    end.


(** Trees and builders the properties are instantiated at. *)
Definition tree_a_b : YAMLNode :=
  Node "root" VNone [Node "a" VNone [Node "b" VNone []]].

Definition tree_search : YAMLNode :=
  Node "root" VNone
       [Node "a" VNone [Node "x" (VYaml (DScalar (SInt 1))) []];
        Node "x" (VYaml (DScalar (SInt 2))) []].


Definition tree_twins : YAMLNode :=
  Node "root" VNone
       [Node "a" (VYaml (DScalar (SInt 1))) [];
        Node "a" (VYaml (DScalar (SInt 2))) []].

(** [delete_current] at the position [p] removes exactly the node at [p],
    with its subtree, from the children of its parent, and puts the cursor
    on the parent. *)
Definition deletes_exactly (remove_child : string -> YAMLNode -> YAMLNode)
           (t : YAMLNode) (p : path) : Prop :=
  forall pp i,
    p = pp ++ [i] ->
    delete_current remove_child (mkBuilder (Some t) (Some p))
    = Return (mkBuilder
                (Some (update (fun n => Node (name n) (value n) (remove_nth i (children n)))
                              pp t))
                (Some pp)).

(** A [remove_child] that drops every child of the given name. *)
Definition drops_named (remove_child : string -> YAMLNode -> YAMLNode) : Prop :=
  forall nm n,
    remove_child nm n
    = Node (name n) (value n) (filter (fun c => negb (name c =? nm)) (children n)).

(** The loop of [_parse_dict_to_tree] over the items of a dict. *)
Fixpoint parse_items (m : list (string * pyvalue)) (b : FluentYAMLBuilder)
  : outcome FluentYAMLBuilder :=
  match m with
  | [] => Return b
  | (key, v) :: m' =>
      match add_child key (DScalar SNone) true b with
      | Raise e s => Raise e s
      | Return b1 =>
          match _parse_dict_to_tree v b1 with
          | Raise e s => Raise e s
          | Return b2 =>
              match up b2 with
              | Raise e s => Raise e s
              | Return b3 => parse_items m' b3
              end
          end
      end
  end.

Definition root_name (b : FluentYAMLBuilder) : option string :=
  option_map name (root b).

(** The tree [root: {a: 1}], built through the builder. *)
Definition builder_root_a : FluentYAMLBuilder :=
  state_of (Return (init (Some "root")) >>= add_child "a" (DScalar (SInt 1)) true).

(** The tree [root: {a: {b: {}}}], built through the builder. *)
Definition builder_root_a_b : FluentYAMLBuilder :=
  state_of (Return (init (Some "root"))
            >>= add_child "a" (DScalar SNone) false
            >>= add_child "b" (DScalar SNone) false).

(** Every key of a document, at every depth, in the order of the text. *)
Fixpoint all_keys (d : pyvalue) : list string :=
  match d with
  | DMap m =>
      (fix keys (m : list (string * pyvalue)) : list string :=
         match m with
         | [] => []
         | (key, v) :: m' => key :: all_keys v ++ keys m'
         end) m
  | _ => []
  end.

Fixpoint all_keys_items (m : list (string * pyvalue)) : list string :=
  match m with
  | [] => []
  | (key, v) :: m' => key :: all_keys v ++ all_keys_items m'
  end.

(** The value that the last scalar or list of a document leaves, [v0]
    when the document has none. *)
Fixpoint final_value (v0 : node_value) (d : pyvalue) : node_value :=
  match d with
  | DScalar _ => VYaml d
  | DList l => VList l
  | DMap m =>
      (fix values (m : list (string * pyvalue)) (v0 : node_value) : node_value :=
         match m with
         | [] => v0
         | (_, v) :: m' => values m' (final_value v0 v)
         end) m v0
  end.

Fixpoint final_value_items (m : list (string * pyvalue)) (v0 : node_value) : node_value :=
  match m with
  | [] => v0
  | (_, v) :: m' => final_value_items m' (final_value v0 v)
  end.

Definition leaf (nm : string) : YAMLNode := Node nm VNone [].

(** How the loop of [to_dict] combines the value already under a key with
    the next value for that key. *)
Definition merge_value (present : option pyvalue) (v : pyvalue) : option pyvalue :=
  match present with
  | Some (DList l) => Some (DList (l ++ [v]))
  | Some old => Some (DList [old; v])
  | None => Some v
  end.

Definition route_1 : YAMLNode := Node "route" (VYaml (DScalar (SStr "A"))) [].
Definition route_2 : YAMLNode := Node "route" VNone [Node "to" (VYaml (DScalar (SStr "B"))) []].
Definition route_3 : YAMLNode := Node "route" (VYaml (DScalar (SStr "C"))) [].
Definition route_list : YAMLNode := Node "route" (VList [DScalar (SInt 1)]) [].

(** A text without braces. *)
Fixpoint brace_free (s : string) : bool :=
  match s with
  | EmptyString => true
  | String c s' => negb (Ascii.eqb c lbrace) && negb (Ascii.eqb c rbrace) && brace_free s'
  end.

(** A directory with one manager and one worker, a factory that knows the
    runner kind [multipass], and the template [echo {vm_instance}]. *)
Definition directory_one_manager : PortVmRepository :=
  vm_directory [mkVm "mgr-1" MANAGER "" "" "2G" "10G";
                mkVm "wrk-1" WORKER "" "" "2G" "10G"].

Definition directory_two_managers : PortVmRepository :=
  vm_directory [mkVm "mgr-1" MANAGER "" "" "2G" "10G";
                mkVm "mgr-2" MANAGER "" "" "2G" "10G"].

Definition enum_of_value (v : string) : exn + string :=
  if v =? "multipass" then inr v else inl (ValueError v).

Definition factory_by_name : CommandRunnerFactory string string :=
  mkFactory (fun kind => inr kind).

Definition echo_template : CommandEntity.t :=
  CommandEntity.mk 3 "greet {vm_instance}" "echo {vm_instance}" "multipass".

(** The plan [{"a": {1: cmd1, 2: cmd2}, "b": {1: cmd3}}] and an executer
    whose coroutine for [a] ends in an exception after its first command
    and whose coroutine for [b] ends with a value. *)
Definition plan_a_b : plan string :=
  [("a", [(1%Z, ExecutableCommandEntity.mk "a" "first" "cmd1" "multipass");
          (2%Z, ExecutableCommandEntity.mk "a" "second" "cmd2" "multipass")]);
   ("b", [(1%Z, ExecutableCommandEntity.mk "b" "third" "cmd3" "multipass")])].

Definition execute_a_fails (commands : dict Z (ExecutableCommandEntity.t string))
  : Coroutine string string string :=
  match commands with
  | (_, c) :: _ =>
      if ExecutableCommandEntity.vm_instance_name c =? "a"
      then mkCoroutine [ExecutableCommandEntity.command c] (inr "cmd1 failed")
      else mkCoroutine (map (fun ic => ExecutableCommandEntity.command (snd ic)) commands)
                       (inl "done")
  | [] => mkCoroutine [] (inl "done")
  end.

(** [find_entry]: the dict of the first child of the root that bears the
    name, [None] when there is none. *)
Fixpoint find_entry_loop (nm : string) (cs : list YAMLNode) : option (string * pyvalue) :=
  match cs with
  | [] => None
  | child :: cs' => if name child =? nm then Some (to_dict child) else find_entry_loop nm cs'
  end.

Definition find_entry (nm : string) (b : FluentYAMLBuilder)
  : exn + option (string * pyvalue) :=
  match root b with
  | Some t => inr (find_entry_loop nm (children t))
  | None => inl AttributeError
  end.

(** [find_all_entries]: the dicts of the children of the root. *)
Definition find_all_entries (b : FluentYAMLBuilder) : exn + list (string * pyvalue) :=
  match root b with
  | Some t => inr (map to_dict (children t))
  | None => inl AttributeError
  end.

(** The number of nodes of a tree. *)
Fixpoint size (t : YAMLNode) : nat :=
  match t with
  | Node _ _ cs =>
      S ((fix sum (cs : list YAMLNode) : nat :=
            match cs with
            | [] => 0
            | c :: cs' => size c + sum cs'
            end) cs)
  end.

Fixpoint size_children (cs : list YAMLNode) : nat :=
  match cs with
  | [] => 0
  | c :: cs' => size c + size_children cs'
  end.

(** The keys of [ks], then the elements of [l] that are neither in [ks]
    nor earlier in [l]: a key enters at the end when it is first seen. *)
Fixpoint first_seen (ks : list string) (l : list string) : list string :=
  match l with
  | [] => ks
  | x :: l' =>
      if existsb (String.eqb x) ks then first_seen ks l' else first_seen (ks ++ [x]) l'
  end.

(** [PortNetplanRepositoryYaml.load]: [file_content] is what
    [file_manager.load] returns, [None] when it raises
    [FileNotFoundError], which [load] catches. *)
Definition netplan_load (yaml_load : string -> option pyvalue)
           (file_content : option string) (builder : FluentYAMLBuilder)
  : (exn + pyvalue) * FluentYAMLBuilder :=
  match file_content with
  | None => (inr (DMap []), builder)
  | Some text =>
      match load_from_string yaml_load text builder with
      | Return b => (build b, b)
      | Raise e b => (inl e, b)
      end
  end.

(** The entries that [create] puts beneath [network] for [data], with
    [nameservers] as the content of the [nameservers] map. *)
Definition netplan_entries (data : Network) (nameservers : list (string * pyvalue))
  : list (string * pyvalue) :=
  [("version", DScalar (SInt 2));
   ("renderer", DScalar (SStr "networkd"));
   ("ethernets",
    DMap
      [("ens3",
        DMap
          [("dhcp4", DScalar (SStr "no"));
           ("addresses",
            DList [DScalar (SStr (ip_address (net_ip_address data) ++ "/24")%string)]);
           ("routes",
            DList [DMap [("to", DScalar (SStr "0.0.0.0/0"));
                         ("via", DScalar (SStr (ip_address (net_gateway data))))]]);
           ("nameservers", DMap nameservers)])])].

Definition name_servers : string * pyvalue :=
  ("addresses", DList [DScalar (SStr "8.8.8.8"); DScalar (SStr "8.8.4.4")]).

Definition network_10 : Network := mkNetwork (mkIp "10.0.0.5") (mkIp "10.0.0.1").

Definition strategy_one_manager : ManagerStrategy string string :=
  mkStrategy MANAGER directory_one_manager factory_by_name.

Definition install_template : CommandEntity.t :=
  CommandEntity.mk 3 "install on {vm_instance}" "apt install {vm_instance}" "multipass".

Definition broken_template : CommandEntity.t :=
  CommandEntity.mk 4 "greet {vm_instance}" "echo {vm_instance}" "unknown-kind".

(* ================================================================== *)
(** ** MultipassInitVms                                                *)
(* ================================================================== *)

Section MultipassInitVms.
(** [_setup_commands_init] hands the file name to a [CommandBuilder],
    which is not among the sources: what it gives for a file, a plan or
    the exception it raises, is a parameter.  Each phase has its own
    [CommandRunnerUI]; the event loop of each phase follows its own
    schedule. *)
Variable Runner : Type.
Variable Action : Type.
Variable Value : Type.
Variable Failure : Type.
Variable execute : dict Z (ExecutableCommandEntity.t Runner)
                   -> Coroutine Action Value Failure.
Variable _setup_commands_init : string -> exn + plan Runner.

(** [MultipassInitVms.run]: the clean-up phase, then the initialisation
    phase; the trace of the whole, and the exception that ends it, if
    one does.  The plan of the second phase is built after the first
    phase has run. *)
Definition multipass_init_vms_run (schedule_clean schedule_init : list nat)
  : list (event Action) * option exn :=
  match _setup_commands_init "command_multipass_clean_repository_yaml.yaml" with
  | inl e => ([], Some e)
  | inr command_list =>
      let runner_ui := runner_init command_list in
      match run execute schedule_clean runner_ui with
      | (trace_clean, inl e) => (trace_clean, Some e)
      | (trace_clean, inr _) =>
          match _setup_commands_init "command_multipass_init_repository_yaml.yaml" with
          | inl e => (trace_clean, Some e)
          | inr command_list =>
              let runner_ui := runner_init command_list in
              match run execute schedule_init runner_ui with
              | (trace_init, inl e) => (trace_clean ++ trace_init, Some e)
              | (trace_init, inr _) => (trace_clean ++ trace_init, None)
              end
          end
      end
  end.
End MultipassInitVms.

Arguments multipass_init_vms_run {Runner Action Value Failure}.

(** The plans of the two phases: [plan_a_b] for the clean-up, one
    command for [b] for the initialisation; any other file is unknown. *)
Definition setup_commands_a_b (config_file : string) : exn + plan string :=
  if config_file =? "command_multipass_clean_repository_yaml.yaml"
  then inr plan_a_b
  else if config_file =? "command_multipass_init_repository_yaml.yaml"
  then inr [("b", [(1%Z, ExecutableCommandEntity.mk "b" "launch" "cmd4" "multipass")])]
  else inl (ValueError config_file).

(** Modelled from the spec's words: what merging a value beneath a node
    named [nm] is meant to build.  A child is entered, or created, per
    map key, and the merge recurses into it; a scalar leaf becomes the
    scalar value of its node, a list leaf its sequence value. *)
Fixpoint intended_tree (nm : string) (v : pyvalue) : YAMLNode :=
  match v with
  | DScalar _ => Node nm (VYaml v) []
  | DList l => Node nm (VList l) []
  | DMap m =>
      Node nm VNone
           ((fix entries (m : list (string * pyvalue)) : list YAMLNode :=
               match m with
               | [] => []
               | (key, w) :: m' => intended_tree key w :: entries m'
               end) m)
  end.

Fixpoint intended_children (m : list (string * pyvalue)) : list YAMLNode :=
  match m with
  | [] => []
  | (key, w) :: m' => intended_tree key w :: intended_children m'
  end.

(* ================================================================== *)
(** * Properties                                                       *)
(* ================================================================== *)

(* ================================================================== *)
(** ** Facts about dictionaries and lists                              *)
(* ================================================================== *)

Section DictFacts.
Context {K V : Type} (eqb : K -> K -> bool).
Hypothesis eqb_spec : forall a b, eqb a b = true <-> a = b.

Lemma eqb_same : forall a, eqb a a = true.
Proof. intro a. apply eqb_spec. reflexivity. Qed.

Lemma eqb_differ : forall a b, a <> b -> eqb a b = false.
Proof.
  intros a b Hab. destruct (eqb a b) eqn:E; [|reflexivity].
  apply eqb_spec in E. contradiction.
Qed.

Lemma dict_get_set_same :
  forall k (v : V) d, dict_get eqb k (dict_set eqb k v d) = Some v.
Proof.
  intros k v d. induction d as [|[k' v'] d IH]; simpl.
  - rewrite eqb_same. reflexivity.
  - destruct (eqb k k') eqn:E; simpl; rewrite E; auto.
Qed.

Lemma dict_get_set_other :
  forall k k' (v : V) d,
    k' <> k -> dict_get eqb k' (dict_set eqb k v d) = dict_get eqb k' d.
Proof.
  intros k k' v d Hne. induction d as [|[k0 v0] d IH]; simpl.
  - rewrite (eqb_differ _ _ Hne). reflexivity.
  - destruct (eqb k k0) eqn:E; simpl.
    + apply eqb_spec in E. subst k0. rewrite (eqb_differ _ _ Hne). reflexivity.
    + destruct (eqb k' k0); auto.
Qed.

Lemma dict_get_setdefault_other :
  forall k k' (v : V) d,
    k' <> k -> dict_get eqb k' (dict_setdefault eqb k v d) = dict_get eqb k' d.
Proof.
  intros k k' v d Hne. unfold dict_setdefault.
  destruct (dict_get eqb k d); [reflexivity|].
  apply dict_get_set_other; assumption.
Qed.

Lemma dict_get_keys :
  forall k (d : dict K V), In k (dict_keys d) -> exists v, dict_get eqb k d = Some v.
Proof.
  intros k d. induction d as [|[k0 v0] d IH]; simpl; intros Hin; [contradiction|].
  destruct (eqb k k0) eqn:E; [eauto|].
  destruct Hin as [->|Hin]; [rewrite eqb_same in E; discriminate|auto].
Qed.
End DictFacts.

Lemma string_eqb_spec : forall a b : string, String.eqb a b = true <-> a = b.
Proof. intros a b. apply String.eqb_eq. Qed.

Lemma Z_eqb_spec : forall a b : Z, Z.eqb a b = true <-> a = b.
Proof. intros a b. apply Z.eqb_eq. Qed.

Lemma nth_error_list_update_same :
  forall (A : Type) (f : A -> A) l i x,
    nth_error l i = Some x -> nth_error (list_update i f l) i = Some (f x).
Proof.
  intros A f l. induction l as [|y l IH]; intros [|i] x H; simpl in *; try discriminate.
  - congruence.
  - auto.
Qed.

Lemma nth_error_list_update_other :
  forall (A : Type) (f : A -> A) l i j,
    i <> j -> nth_error (list_update i f l) j = nth_error l j.
Proof.
  intros A f l. induction l as [|y l IH]; intros [|i] [|j] H; simpl; auto.
  congruence.
Qed.

Lemma length_list_update :
  forall (A : Type) (f : A -> A) l i, List.length (list_update i f l) = List.length l.
Proof.
  intros A f l. induction l as [|y l IH]; intros [|i]; simpl; auto.
Qed.

(** Induction on trees, with the property available for every child. *)
Lemma YAMLNode_tree_ind :
  forall P : YAMLNode -> Prop,
    (forall nm v cs, Forall P cs -> P (Node nm v cs)) ->
    forall t, P t.
Proof.
  intros P H. fix IH 1. intros [nm v cs]. apply H.
  induction cs as [|c cs IHcs]; constructor; [apply IH | exact IHcs].
Qed.

(* ================================================================== *)
(** ** navigate_to and up                                              *)
(* ================================================================== *)

Lemma find_child_from_some :
  forall key cs i0 i c,
    find_child_from i0 key cs = Some (i, c) ->
    exists j, i = i0 + j /\ nth_error cs j = Some c /\ name c = key
              /\ forall j' c', j' < j -> nth_error cs j' = Some c' -> name c' <> key.
Proof.
  intros key cs. induction cs as [|x cs IH]; intros i0 i c H; simpl in H; [discriminate|].
  destruct (name x =? key) eqn:E.
  - inversion H; subst. exists 0.
    split; [lia|]. split; [reflexivity|]. split; [apply String.eqb_eq; assumption|].
    intros j' c' Hlt. lia.
  - apply IH in H. destruct H as (j & -> & Hn & Hname & Hfirst).
    exists (S j). split; [lia|]. split; [exact Hn|]. split; [exact Hname|].
    intros [|j'] c' Hlt Hc'; simpl in Hc'.
    + inversion Hc'; subst. apply String.eqb_neq; assumption.
    + apply (Hfirst j'); [lia|assumption].
Qed.

Lemma find_child_from_first :
  forall key cs i0 j c,
    nth_error cs j = Some c -> name c = key ->
    (forall j' c', j' < j -> nth_error cs j' = Some c' -> name c' <> key) ->
    find_child_from i0 key cs = Some (i0 + j, c).
Proof.
  intros key cs. induction cs as [|x cs IH]; intros i0 [|j] c Hn Hname Hfirst;
    simpl in *; try discriminate.
  - inversion Hn; subst. rewrite String.eqb_refl. f_equal. f_equal. lia.
  - assert (Hx : name x <> key) by (apply (Hfirst 0 x); [lia|reflexivity]).
    apply String.eqb_neq in Hx. rewrite Hx.
    rewrite (IH (S i0) j c Hn Hname).
    + f_equal. f_equal. lia.
    + intros j' c' Hlt Hc'. apply (Hfirst (S j') c'); [lia|assumption].
Qed.

Lemma find_child_from_none :
  forall key cs i0,
    find_child_from i0 key cs = None <-> (forall c, In c cs -> name c <> key).
Proof.
  intros key cs. induction cs as [|x cs IH]; intros i0; simpl.
  - split; [intros _ c []|reflexivity].
  - destruct (name x =? key) eqn:E.
    + split; [discriminate|]. intros H. exfalso.
      apply (H x); [left; reflexivity|apply String.eqb_eq; assumption].
    + rewrite IH. split.
      * intros H c [<-|Hin]; [apply String.eqb_neq; assumption|auto].
      * intros H c Hin. apply H. right; assumption.
Qed.

Lemma navigate_loop_resolves :
  forall keys node here traversed p,
    resolves node keys p ->
    navigate_loop node here traversed keys = inr (here ++ p).
Proof.
  induction keys as [|key keys IH]; intros node here traversed p H; inversion H; subst; simpl.
  - rewrite app_nil_r. reflexivity.
  - unfold find_child.
    rewrite (find_child_from_first (name c) (children node) 0 i c) by auto.
    simpl. rewrite (IH c (here ++ [i]) (traversed ++ [name c]) p0) by assumption.
    rewrite <- app_assoc. reflexivity.
Qed.

Lemma resolves_get :
  forall t keys p, resolves t keys p -> exists n, get t p = Some n.
Proof.
  intros t keys p H. induction H as [t|t key keys i c p Hn Hname Hfirst Hres IH].
  - exists t. reflexivity.
  - destruct IH as [n Hg]. exists n. simpl. rewrite Hn. assumption.
Qed.

Lemma resolves_length :
  forall t keys p, resolves t keys p -> List.length p = List.length keys.
Proof.
  intros t keys p H. induction H; simpl; auto.
Qed.

Lemma navigate_loop_absent :
  forall pre node here traversed key post p n,
    resolves node pre p -> get node p = Some n -> no_child_named key n ->
    navigate_loop node here traversed (pre ++ key :: post)
    = inl (KeyError ("Path not found at segment '" ++ key
                     ++ "' after traversing: " ++ join "/" (traversed ++ pre))%string).
Proof.
  induction pre as [|k pre IH]; intros node here traversed key post p n Hres Hget Hno;
    inversion Hres; subst; simpl in *.
  - inversion Hget; subst. unfold find_child.
    assert (Hnone : find_child_from 0 key (children n) = None)
      by (exact (proj2 (find_child_from_none key (children n) 0) Hno)).
    rewrite Hnone. rewrite app_nil_r. reflexivity.
  - unfold find_child.
    rewrite (find_child_from_first (name c) (children node) 0 i c) by auto.
    simpl. rewrite H1 in Hget.
    rewrite (IH c (here ++ [i]) (traversed ++ [name c]) key post p0 n) by assumption.
    rewrite <- app_assoc. reflexivity.
Qed.

Lemma resolves_or_absent :
  forall keys t,
    (exists p, resolves t keys p)
    \/ (exists pre key post p n,
           keys = pre ++ key :: post /\ resolves t pre p
           /\ get t p = Some n /\ no_child_named key n).
Proof.
  induction keys as [|key keys IH]; intros t.
  - left. exists []. constructor.
  - destruct (find_child_from 0 key (children t)) as [[i c]|] eqn:E.
    + apply find_child_from_some in E. destruct E as (j & -> & Hn & Hname & Hfirst).
      simpl. destruct (IH c) as [[p Hp]|(pre & k & post & p & n & -> & Hres & Hget & Hno)].
      * left. exists (j :: p). econstructor; eauto.
      * right. exists (key :: pre), k, post, (j :: p), n. repeat split; auto.
        -- econstructor; eauto.
        -- simpl. rewrite Hn. assumption.
    + right. exists [], key, keys, [], t. repeat split; auto.
      * constructor.
      * exact (proj1 (find_child_from_none key (children t) 0) E).
Qed.

Lemma resolves_snoc_inv :
  forall pre t key p,
    resolves t (pre ++ [key]) p ->
    exists q i, p = q ++ [i] /\ resolves t pre q.
Proof.
  induction pre as [|k pre IH]; intros t key p H; inversion H; subst.
  - inversion H7; subst. exists [], i. split; [reflexivity|constructor].
  - apply IH in H7. destruct H7 as (q & j & -> & Hq).
    exists (i :: q), j. split; [reflexivity|]. econstructor; eauto.
Qed.

(** C8.  [navigate_to] moves the cursor to the node reached by following
    the segments from the root, each into the first child of that name;
    when a segment is absent it raises the error that names that segment
    and the prefix traversed so far, and leaves the builder as it was.
    One of the two always happens.  After a successful walk of a path
    that ends in [key], [up] puts the cursor on the node the prefix
    leads to. *)
Theorem navigate_to_follows_path :
  forall (t : YAMLNode) (cursor : path) (keys : list string),
    let b := mkBuilder (Some t) (Some cursor) in
    (forall p, resolves t keys p ->
               navigate_to keys b = Return (mkBuilder (Some t) (Some p))
               /\ exists n, get t p = Some n)
    /\ (forall pre key post p n,
           keys = pre ++ key :: post -> resolves t pre p ->
           get t p = Some n -> no_child_named key n ->
           navigate_to keys b
           = Raise (KeyError ("Path not found at segment '" ++ key
                              ++ "' after traversing: " ++ join "/" pre)%string) b)
    /\ ((exists p, resolves t keys p)
        \/ (exists pre key post p n,
               keys = pre ++ key :: post /\ resolves t pre p
               /\ get t p = Some n /\ no_child_named key n))
    /\ (forall pre key p,
           keys = pre ++ [key] -> resolves t keys p ->
           exists q, resolves t pre q
                     /\ navigate_to keys b >>= up = Return (mkBuilder (Some t) (Some q))).
Proof.
  intros t cursor keys b. repeat split.
  - unfold navigate_to, b; simpl.
    rewrite (navigate_loop_resolves keys t [] [] p H). reflexivity.
  - eapply resolves_get; eassumption.
  - intros pre key post p n -> Hres Hget Hno. unfold navigate_to, b; simpl.
    rewrite (navigate_loop_absent pre t [] [] key post p n Hres Hget Hno).
    reflexivity.
  - apply resolves_or_absent.
  - intros pre key p -> Hres.
    destruct (resolves_snoc_inv _ _ _ _ Hres) as (q & i & -> & Hq).
    exists q. split; [assumption|].
    unfold navigate_to, b; simpl.
    rewrite (navigate_loop_resolves _ t [] [] _ Hres). simpl.
    unfold up; simpl. unfold parent.
    destruct (q ++ [i]) eqn:E; [destruct q; discriminate|].
    rewrite <- E. rewrite removelast_last. reflexivity.
Qed.

Lemma navigate_to_follows_path_witness :
  navigate_to ["a"; "b"] (mkBuilder (Some tree_a_b) (Some []))
  = Return (mkBuilder (Some tree_a_b) (Some [0; 0]))
  /\ navigate_to ["a"; "b"] (mkBuilder (Some tree_a_b) (Some [])) >>= up
     = Return (mkBuilder (Some tree_a_b) (Some [0]))
  /\ navigate_to ["a"; "missing"] (mkBuilder (Some tree_a_b) (Some []))
     = Raise (KeyError "Path not found at segment 'missing' after traversing: a")
             (mkBuilder (Some tree_a_b) (Some [])).
Proof.
  assert (Ra : resolves tree_a_b ["a"] [0]).
  { eapply resolves_cons with (c := Node "a" VNone [Node "b" VNone []]);
      [reflexivity|reflexivity|intros j c' Hj; lia|constructor]. }
  assert (Rab : resolves tree_a_b ["a"; "b"] [0; 0]).
  { eapply resolves_cons with (c := Node "a" VNone [Node "b" VNone []]);
      [reflexivity|reflexivity|intros j c' Hj; lia|].
    eapply resolves_cons with (c := Node "b" VNone []);
      [reflexivity|reflexivity|intros j c' Hj; lia|constructor]. }
  destruct (navigate_to_follows_path tree_a_b [] ["a"; "b"]) as (Hok & _ & _ & Hup).
  destruct (navigate_to_follows_path tree_a_b [] ["a"; "missing"]) as (_ & Hbad & _ & _).
  split; [exact (proj1 (Hok [0; 0] Rab))|]. split.
  - reflexivity.
  - apply (Hbad ["a"] "missing" [] [0] (Node "a" VNone [Node "b" VNone []]));
      [reflexivity|exact Ra|reflexivity|].
    intros c [<-|[]]. simpl. discriminate.
Defined.

(* ================================================================== *)
(** ** navigate_to_recursively                                         *)
(* ================================================================== *)

Lemma preorder_node :
  forall nm v cs,
    preorder (Node nm v cs) = ([], Node nm v cs) :: preorder_children 0 cs.
Proof.
  intros nm v cs. reflexivity.
Qed.

Lemma recursive_search_node :
  forall nm n v cs name_rc,
    recursive_search nm (Node n v cs) name_rc
    = if n =? name_rc then Some [] else search_children nm 0 cs.
Proof.
  intros nm n v cs name_rc. reflexivity.
Qed.

Lemma find_named_shift :
  forall nm i l,
    find (named nm) (map (fun pn : path * YAMLNode => (i :: fst pn, snd pn)) l)
    = option_map (fun pn : path * YAMLNode => (i :: fst pn, snd pn)) (find (named nm) l).
Proof.
  intros nm i l. induction l as [|[p n] l IH]; simpl; [reflexivity|].
  unfold named at 1 3; simpl. destruct (name n =? nm); [reflexivity|exact IH].
Qed.

Lemma find_app_first :
  forall (A : Type) (f : A -> bool) l1 l2,
    find f (l1 ++ l2) = match find f l1 with Some x => Some x | None => find f l2 end.
Proof.
  intros A f l1 l2. induction l1 as [|x l1 IH]; simpl; [reflexivity|].
  destruct (f x); [reflexivity|exact IH].
Qed.

Lemma recursive_search_first_named :
  forall nm t,
    recursive_search nm t nm = option_map fst (first_named nm t).
Proof.
  intros nm. unfold first_named.
  induction t as [n v cs IH] using YAMLNode_tree_ind.
  rewrite recursive_search_node, preorder_node. simpl.
  unfold named at 1; simpl. destruct (n =? nm); [reflexivity|].
  generalize 0. induction IH as [|c cs Hc _ IHcs]; intros i; simpl; [reflexivity|].
  rewrite find_app_first, find_named_shift, Hc.
  destruct (find (named nm) (preorder c)) as [[p x]|]; simpl; [reflexivity|].
  apply IHcs.
Qed.

Lemma preorder_children_in :
  forall cs i0 p n,
    In (p, n) (preorder_children i0 cs) <->
    exists j c q, p = (i0 + j) :: q /\ nth_error cs j = Some c /\ In (q, n) (preorder c).
Proof.
  induction cs as [|c cs IH]; intros i0 p n; simpl.
  - split; [intros []|]. intros (j & c & q & _ & H & _). destruct j; discriminate.
  - rewrite in_app_iff, in_map_iff, IH. split.
    + intros [([q x] & Heq & Hin)|(j & c' & q & -> & Hn & Hin)].
      * simpl in Heq. inversion Heq; subst. exists 0, c, q.
        split; [rewrite Nat.add_0_r; reflexivity|]. split; [reflexivity|assumption].
      * exists (S j), c', q. split; [f_equal; lia|]. split; assumption.
    + intros ([|j] & c' & q & -> & Hn & Hin); simpl in Hn.
      * inversion Hn; subst. left. exists (q, n).
        split; [simpl; rewrite Nat.add_0_r; reflexivity|assumption].
      * right. exists j, c', q. split; [f_equal; lia|]. split; assumption.
Qed.

(** The pre-order list holds exactly the nodes of the tree. *)
Lemma preorder_in_get :
  forall t p n, In (p, n) (preorder t) <-> get t p = Some n.
Proof.
  induction t as [nm v cs IH] using YAMLNode_tree_ind. intros p n.
  rewrite preorder_node. simpl. rewrite preorder_children_in. split.
  - intros [Heq|(j & c & q & -> & Hn & Hin)].
    + inversion Heq; subst. reflexivity.
    + simpl. rewrite Hn. rewrite Forall_forall in IH.
      apply (IH c); [eapply nth_error_In; eassumption|assumption].
  - destruct p as [|i q]; simpl.
    + intros H. inversion H; subst. left. reflexivity.
    + destruct (nth_error cs i) as [c|] eqn:Hn; [|discriminate].
      intros Hg. right. exists i, c, q. split; [reflexivity|]. split; [exact Hn|].
      rewrite Forall_forall in IH.
      apply (IH c); [eapply nth_error_In; eassumption|assumption].
Qed.

Lemma find_first_split :
  forall (A : Type) (f : A -> bool) l x,
    find f l = Some x ->
    exists before after,
      l = before ++ x :: after /\ f x = true /\ forall y, In y before -> f y = false.
Proof.
  intros A f l x. induction l as [|y l IH]; simpl; [discriminate|].
  destruct (f y) eqn:E.
  - intros H. inversion H; subst. exists [], l. split; [reflexivity|]. split; [assumption|].
    intros z [].
  - intros H. destruct (IH H) as (before & after & -> & Hx & Hb).
    exists (y :: before), after. split; [reflexivity|]. split; [assumption|].
    intros z [<-|Hz]; auto.
Qed.

(** C9.  [navigate_to_recursively] moves the cursor to the first node of
    that name in the pre-order list of the tree: the node bears the name,
    no node before it in pre-order does.  It raises the error of the
    absent node, leaving the builder as it was, exactly when no node of
    the tree bears the name. *)
Theorem navigate_to_recursively_preorder :
  forall (t : YAMLNode) (cursor : path) (nm : string),
    let b := mkBuilder (Some t) (Some cursor) in
    (forall p n,
        first_named nm t = Some (p, n) ->
        navigate_to_recursively nm b = Return (mkBuilder (Some t) (Some p))
        /\ get t p = Some n /\ name n = nm
        /\ exists before after,
            preorder t = before ++ (p, n) :: after
            /\ forall q m, In (q, m) before -> name m <> nm)
    /\ (first_named nm t = None ->
        navigate_to_recursively nm b
        = Raise (KeyError ("Node '" ++ nm ++ "' not found in the tree.")%string) b)
    /\ (first_named nm t = None <-> forall p n, get t p = Some n -> name n <> nm).
Proof.
  intros t cursor nm b. split; [|split].
  - intros p n Hfirst.
    unfold navigate_to_recursively, b; simpl.
    rewrite recursive_search_first_named, Hfirst. simpl.
    split; [reflexivity|]. unfold first_named in Hfirst.
    destruct (find_first_split _ _ _ _ Hfirst) as (before & after & Heq & Hnamed & Hbefore).
    split.
    + apply preorder_in_get. rewrite Heq. apply in_or_app. right. left. reflexivity.
    + split; [apply String.eqb_eq; exact Hnamed|].
      exists before, after. split; [exact Heq|].
      intros q m Hin. apply String.eqb_neq. exact (Hbefore (q, m) Hin).
  - intros Hnone. unfold navigate_to_recursively, b; simpl.
    rewrite recursive_search_first_named, Hnone. reflexivity.
  - unfold first_named. split.
    + intros Hnone p n Hget. apply String.eqb_neq.
      apply (find_none _ _ Hnone (p, n)). apply preorder_in_get. assumption.
    + intros Hall. destruct (find (named nm) (preorder t)) as [[p n]|] eqn:E; [|reflexivity].
      apply find_some in E. destruct E as [Hin Hnamed].
      apply preorder_in_get in Hin. apply String.eqb_eq in Hnamed.
      exfalso. exact (Hall p n Hin Hnamed).
Qed.

Lemma navigate_to_recursively_preorder_witness :
  navigate_to_recursively "x" (mkBuilder (Some tree_search) (Some []))
  = Return (mkBuilder (Some tree_search) (Some [0; 0]))
  /\ navigate_to_recursively "y" (mkBuilder (Some tree_search) (Some []))
     = Raise (KeyError "Node 'y' not found in the tree.")
             (mkBuilder (Some tree_search) (Some [])).
Proof.
  destruct (navigate_to_recursively_preorder tree_search [] "x") as (Hfound & _ & _).
  destruct (navigate_to_recursively_preorder tree_search [] "y") as (_ & Habsent & _).
  split.
  - exact (proj1 (Hfound [0; 0] (Node "x" (VYaml (DScalar (SInt 1))) []) eq_refl)).
  - exact (Habsent eq_refl).
Defined.

(* ================================================================== *)
(** ** delete_current                                                  *)
(* ================================================================== *)

Lemma parent_snoc : forall (pp : path) i, parent (pp ++ [i]) = Some pp.
Proof.
  intros pp i. unfold parent.
  destruct (pp ++ [i]) eqn:E; [destruct pp; discriminate|].
  rewrite <- E, removelast_last. reflexivity.
Qed.

Lemma path_cases : forall p : path, p = [] \/ exists pp i, p = pp ++ [i].
Proof.
  intros p. induction p as [|i p _] using rev_ind; [left; reflexivity|].
  right. exists p, i. reflexivity.
Qed.

(** At the root [delete_current] raises and changes nothing; anywhere else
    it returns, with the cursor on the parent and the parent rewritten by
    [remove_child] applied to the name of the cursor node. *)
Lemma delete_current_cases :
  forall remove_child t p cur,
    get t p = Some cur ->
    let b := mkBuilder (Some t) (Some p) in
    (p = [] -> delete_current remove_child b
               = Raise (ValueError "Cannot delete root node") b)
    /\ (forall pp i, p = pp ++ [i] ->
          delete_current remove_child b
          = Return (mkBuilder (Some (update (remove_child (name cur)) pp t)) (Some pp))).
Proof.
  intros remove_child t p cur Hget b. unfold delete_current, b; simpl. rewrite Hget.
  split.
  - intros ->. reflexivity.
  - intros pp i ->. rewrite parent_snoc. reflexivity.
Qed.

Lemma delete_current_raises_iff_root :
  forall remove_child t p cur,
    get t p = Some cur ->
    (returned (delete_current remove_child (mkBuilder (Some t) (Some p))) = false
     <-> p = []).
Proof.
  intros remove_child t p cur Hget.
  destruct (delete_current_cases remove_child t p cur Hget) as [Hroot Hsub].
  destruct (path_cases p) as [->|(pp & i & ->)].
  - rewrite (Hroot eq_refl). simpl. split; auto.
  - rewrite (Hsub pp i eq_refl). simpl. split; [discriminate|].
    intros H. destruct pp; discriminate.
Qed.

Lemma filter_other_names_all :
  forall nm (cs : list YAMLNode),
    (forall c, In c cs -> name c <> nm) ->
    filter (fun x => negb (name x =? nm)) cs = cs.
Proof.
  intros nm cs. induction cs as [|x cs IH]; intros Hall; simpl; [reflexivity|].
  assert (Hx : name x <> nm) by (apply Hall; left; reflexivity).
  apply String.eqb_neq in Hx. rewrite Hx. simpl. f_equal.
  apply IH. intros c Hin. apply Hall. right. exact Hin.
Qed.

Lemma filter_other_names_remove_nth :
  forall nm (cs : list YAMLNode) i c,
    nth_error cs i = Some c -> name c = nm ->
    (forall j c', j <> i -> nth_error cs j = Some c' -> name c' <> nm) ->
    filter (fun x => negb (name x =? nm)) cs = remove_nth i cs.
Proof.
  intros nm cs. induction cs as [|x cs IH]; intros [|i] c Hn Hname Hothers;
    simpl in *; try discriminate.
  - inversion Hn; subst. rewrite String.eqb_refl. simpl.
    apply filter_other_names_all. intros y Hin.
    apply In_nth_error in Hin. destruct Hin as [j Hj].
    apply (Hothers (S j) y); [lia|exact Hj].
  - assert (Hx : name x <> nm) by (apply (Hothers 0 x); [lia|reflexivity]).
    apply String.eqb_neq in Hx. rewrite Hx. simpl. f_equal.
    apply (IH i c Hn Hname). intros j c' Hj Hc'.
    apply (Hothers (S j) c'); [lia|exact Hc'].
Qed.

Lemma update_ext_at :
  forall f g p t n,
    get t p = Some n -> f n = g n -> update f p t = update g p t.
Proof.
  intros f g p. induction p as [|i q IH]; intros t n Hget Hfg; simpl in *.
  - inversion Hget; subst. exact Hfg.
  - f_equal. destruct (nth_error (children t) i) as [c|] eqn:Hn; [|discriminate].
    revert i Hn. generalize (children t) as cs.
    induction cs as [|x cs IHcs]; intros [|i] Hn; simpl in *; try discriminate.
    + inversion Hn; subst. f_equal. apply (IH c n Hget Hfg).
    + f_equal. apply IHcs. exact Hn.
Qed.

Lemma get_snoc :
  forall p t i n,
    get t (p ++ [i]) = Some n ->
    exists m, get t p = Some m /\ nth_error (children m) i = Some n.
Proof.
  induction p as [|j p IH]; intros t i n H; simpl in *.
  - destruct (nth_error (children t) i) as [c|] eqn:Hn; [|discriminate].
    inversion H; subst. exists t. split; reflexivity || assumption.
  - destruct (nth_error (children t) j) as [c|]; [|discriminate].
    apply IH. exact H.
Qed.

(** When [remove_child] drops the children of the given name and the
    cursor node is the only child of its parent with its name,
    [delete_current] removes exactly the cursor node. *)
Lemma delete_current_unique_name :
  forall remove_child t pp i cur m,
    drops_named remove_child ->
    get t pp = Some m ->
    nth_error (children m) i = Some cur ->
    (forall j c', j <> i -> nth_error (children m) j = Some c' -> name c' <> name cur) ->
    deletes_exactly remove_child t (pp ++ [i]).
Proof.
  intros remove_child t pp i cur m Hdrop Hm Hcur Huniq pp' i' Heq.
  apply app_inj_tail in Heq. destruct Heq as [<- <-].
  assert (Hget : get t (pp ++ [i]) = Some cur).
  { clear Huniq. revert t Hm. induction pp as [|j pp IH]; intros t Hm; simpl in *.
    - inversion Hm; subst. rewrite Hcur. reflexivity.
    - destruct (nth_error (children t) j); [|discriminate]. apply IH. exact Hm. }
  destruct (delete_current_cases remove_child t (pp ++ [i]) cur Hget) as [_ Hsub].
  rewrite (Hsub pp i eq_refl). f_equal. f_equal. f_equal.
  apply (update_ext_at _ _ pp t m Hm).
  rewrite Hdrop. f_equal.
  apply (filter_other_names_remove_nth (name cur) (children m) i cur Hcur eq_refl Huniq).
Qed.

(** C6.  Whatever [remove_child] does with the name it receives, on the
    tree whose root has two children named [a] it cannot remove exactly
    the cursor node both when the cursor is the first and when it is the
    second of them: the parent is rewritten in the same way in both
    cases, while the claim asks for two different results. *)
Theorem delete_current_same_named_sibling :
  forall remove_child : string -> YAMLNode -> YAMLNode,
    ~ (deletes_exactly remove_child tree_twins [0]
       /\ deletes_exactly remove_child tree_twins [1]).
Proof.
  intros remove_child [H0 H1].
  specialize (H0 [] 0 eq_refl). specialize (H1 [] 1 eq_refl).
  unfold delete_current, tree_twins in H0, H1. simpl in H0, H1.
  inversion H0 as [E0]. inversion H1 as [E1].
  rewrite E0 in E1. discriminate.
Qed.

(* ================================================================== *)
(** ** The cursor stays in the tree                                    *)
(* ================================================================== *)

Lemma pyvalue_tree_ind :
  forall P : pyvalue -> Prop,
    (forall s, P (DScalar s)) ->
    (forall l, Forall P l -> P (DList l)) ->
    (forall m, Forall (fun kv => P (snd kv)) m -> P (DMap m)) ->
    forall d, P d.
Proof.
  intros P Hs Hl Hm. fix IH 1. intros [s|l|m].
  - apply Hs.
  - apply Hl. induction l as [|x l IHl]; constructor; [apply IH|exact IHl].
  - apply Hm. induction m as [|[k v] m IHm]; constructor; [apply IH|exact IHm].
Qed.

Lemma get_app :
  forall p q t,
    get t (p ++ q) = match get t p with Some m => get m q | None => None end.
Proof.
  induction p as [|i p IH]; intros q t; simpl; [reflexivity|].
  destruct (nth_error (children t) i); [apply IH|reflexivity].
Qed.

Lemma get_update_same :
  forall f p t n, get t p = Some n -> get (update f p t) p = Some (f n).
Proof.
  intros f p. induction p as [|i p IH]; intros t n H; simpl in *.
  - congruence.
  - destruct (nth_error (children t) i) as [c|] eqn:Hn; [|discriminate].
    rewrite (nth_error_list_update_same _ _ _ _ _ Hn). apply IH. exact H.
Qed.

Lemma name_update :
  forall f p t, (forall n, name (f n) = name n) -> name (update f p t) = name t.
Proof.
  intros f [|i p] t Hf; simpl; [apply Hf|reflexivity].
Qed.

Lemma add_child_keeps_cursor :
  forall nm v stay b,
    cursor_in_tree b ->
    exists b', add_child nm v stay b = Return b'
               /\ cursor_in_tree b' /\ root_name b' = root_name b.
Proof.
  intros nm v stay b (t & p & n & Hr & Hc & Hg).
  unfold add_child. rewrite Hr, Hc, Hg. eexists. split; [reflexivity|].
  assert (Hup : get (update (node_add_child nm v) p t) p = Some (node_add_child nm v n))
    by (apply get_update_same; exact Hg).
  split.
  - destruct stay.
    + exists (update (node_add_child nm v) p t), p, (node_add_child nm v n).
      repeat split. exact Hup.
    + exists (update (node_add_child nm v) p t), (p ++ [List.length (children n)]),
        (new_node nm v).
      repeat split. rewrite get_app, Hup. simpl.
      rewrite nth_error_app2 by lia. rewrite Nat.sub_diag. reflexivity.
  - unfold root_name. rewrite Hr. simpl. f_equal. apply name_update.
    intros x. reflexivity.
Qed.

Lemma up_keeps_cursor :
  forall b,
    cursor_in_tree b ->
    exists b', up b = Return b' /\ cursor_in_tree b' /\ root b' = root b.
Proof.
  intros b (t & p & n & Hr & Hc & Hg). unfold up. rewrite Hc.
  destruct (path_cases p) as [->|(pp & i & ->)].
  - simpl. exists b. split; [reflexivity|]. split; [|reflexivity].
    exists t, [], n. repeat split; assumption.
  - rewrite parent_snoc. eexists. split; [reflexivity|]. split; [|reflexivity].
    destruct (get_snoc _ _ _ _ Hg) as (m & Hm & _).
    exists t, pp, m. repeat split; assumption.
Qed.

Lemma set_current_value_keeps_cursor :
  forall v b,
    cursor_in_tree b ->
    exists b', set_current_value v b = Return b'
               /\ cursor_in_tree b' /\ root_name b' = root_name b.
Proof.
  intros v b (t & p & n & Hr & Hc & Hg).
  unfold set_current_value. rewrite Hr, Hc, Hg. eexists. split; [reflexivity|].
  split.
  - exists (update (set_value v) p t), p, (set_value v n).
    repeat split. apply get_update_same. exact Hg.
  - unfold root_name. rewrite Hr. simpl. f_equal. apply name_update.
    intros x. reflexivity.
Qed.

Lemma parse_dict_map :
  forall m b, _parse_dict_to_tree (DMap m) b = parse_items m b.
Proof. intros m b. reflexivity. Qed.

(** From a builder whose cursor is in its tree [_parse_dict_to_tree]
    returns; the cursor is in the tree again and the root keeps its name. *)
Lemma parse_dict_to_tree_returns :
  forall d b,
    cursor_in_tree b ->
    exists b', _parse_dict_to_tree d b = Return b'
               /\ cursor_in_tree b' /\ root_name b' = root_name b.
Proof.
  induction d as [s|l _|m IH] using pyvalue_tree_ind; intros b Hb.
  - apply set_current_value_keeps_cursor. exact Hb.
  - apply set_current_value_keeps_cursor. exact Hb.
  - rewrite parse_dict_map. revert b Hb.
    induction IH as [|[key v] m Hv _ IHm]; intros b Hb; simpl.
    + exists b. repeat split. exact Hb.
    + destruct (add_child_keeps_cursor key (DScalar SNone) true b Hb)
        as (b1 & -> & Hb1 & Hn1).
      simpl in Hv. destruct (Hv b1 Hb1) as (b2 & -> & Hb2 & Hn2).
      destruct (up_keeps_cursor b2 Hb2) as (b3 & -> & Hb3 & Hn3).
      destruct (IHm b3 Hb3) as (b4 & -> & Hb4 & Hn4).
      exists b4. split; [reflexivity|]. split; [exact Hb4|].
      rewrite Hn4. unfold root_name at 1. rewrite Hn3. fold (root_name b2).
      congruence.
Qed.

(* ================================================================== *)
(** ** load_from_string                                                *)
(* ================================================================== *)

(** Without a first key there is nothing to make the root of: an empty
    or falsy document ends in [StopIteration], any other document that is
    not a dict in the error of the invalid format; the builder is left
    as it was. *)
Lemma load_from_string_without_key :
  forall (yaml_load : string -> option pyvalue) yaml_content b loaded,
    yaml_load yaml_content = Some loaded ->
    (truthy loaded = false ->
       load_from_string yaml_load yaml_content b = Raise StopIteration b)
    /\ (truthy loaded = true -> (forall m, loaded <> DMap m) ->
          load_from_string yaml_load yaml_content b
          = Raise (ValueError "Invalid YAML format, expected a dictionary with a root key.") b).
Proof.
  intros yaml_load yaml_content b loaded Hload.
  unfold load_from_string. rewrite Hload. unfold load_from_data. split.
  - intros ->. reflexivity.
  - intros -> Hnot. destruct loaded as [s|l|m]; try reflexivity.
    exfalso. apply (Hnot m). reflexivity.
Qed.

(* ================================================================== *)
(** ** to_yaml followed by load_from_string                            *)
(* ================================================================== *)

(** With the cursor on the root, [_parse_dict_to_tree] hangs every key of
    the document, whatever its depth, under the root as a childless node
    without value, and writes every scalar and list into the value of the
    root: [add_child] is called with [stay=True], the recursive call works
    on the node the cursor was on, and [up] has no parent to go to. *)
Lemma parse_dict_to_tree_at_root :
  forall d nm v0 cs,
    _parse_dict_to_tree d (mkBuilder (Some (Node nm v0 cs)) (Some []))
    = Return (mkBuilder
                (Some (Node nm (final_value v0 d) (cs ++ map leaf (all_keys d))))
                (Some [])).
Proof.
  induction d as [s|l _|m IH] using pyvalue_tree_ind; intros nm v0 cs.
  - simpl. rewrite app_nil_r. reflexivity.
  - simpl. rewrite app_nil_r. reflexivity.
  - rewrite parse_dict_map.
    change (all_keys (DMap m)) with (all_keys_items m).
    change (final_value v0 (DMap m)) with (final_value_items m v0).
    revert v0 cs. induction IH as [|[key v] m Hv _ IHm]; intros v0 cs.
    + simpl. rewrite app_nil_r. reflexivity.
    + simpl in Hv.
      change (parse_items ((key, v) :: m) (mkBuilder (Some (Node nm v0 cs)) (Some [])))
        with (match _parse_dict_to_tree v
                      (mkBuilder (Some (Node nm v0 (cs ++ [leaf key]))) (Some [])) with
              | Raise e s => Raise e s
              | Return b2 =>
                  match up b2 with
                  | Raise e s => Raise e s
                  | Return b3 => parse_items m b3
                  end
              end).
      rewrite Hv. unfold up. simpl. rewrite IHm.
      rewrite map_app. rewrite <- !app_assoc. simpl. reflexivity.
Qed.

Lemma fst_to_dict : forall t, fst (to_dict t) = name t.
Proof. intros [nm [|l|d] cs]; reflexivity. Qed.

(** C1.  The tree that [load_from_string] builds from the text of
    [to_yaml] is flat: the children of its root have neither value nor
    children.  So whenever a child of the root of the original tree holds
    a value or has a child of its own, the tree that comes back differs
    from the original. *)
Theorem load_from_string_after_to_yaml_differs :
  forall (yaml_dump : pyvalue -> string) (yaml_load : string -> option pyvalue)
         (b : FluentYAMLBuilder) (t : YAMLNode) (text : string),
    root b = Some t ->
    to_yaml yaml_dump b = inr text ->
    yaml_load text = Some (DMap [to_dict t]) ->
    (exists c, In c (children t) /\ (value c <> VNone \/ children c <> [])) ->
    exists b' t',
      load_from_string yaml_load text (init None) = Return b'
      /\ root b' = Some t'
      /\ (forall c, In c (children t') -> value c = VNone /\ children c = [])
      /\ t' <> t.
Proof.
  intros yaml_dump yaml_load b t text Hroot _ Hload (c & Hin & Hc).
  unfold load_from_string. rewrite Hload. unfold load_from_data.
  destruct (to_dict t) as [key v] eqn:Hd. simpl.
  change (new_node key (DScalar SNone)) with (Node key VNone []).
  rewrite parse_dict_to_tree_at_root. simpl.
  eexists. eexists. split; [reflexivity|]. split; [reflexivity|].
  assert (Hflat : forall x, In x (map leaf (all_keys v)) ->
                            value x = VNone /\ children x = []).
  { intros x Hx. apply in_map_iff in Hx. destruct Hx as (k & <- & _). split; reflexivity. }
  split; [exact Hflat|].
  intros Heq. rewrite <- Heq in Hin. simpl in Hin.
  destruct (Hflat c Hin) as [Hv Hcs]. destruct Hc as [Hc|Hc]; contradiction.
Qed.

Lemma load_from_string_after_to_yaml_differs_witness :
  let yaml_dump := fun _ : pyvalue => "root: {a: 1}" in
  let yaml_load := fun _ : string => Some (DMap [("root", DMap [("a", DScalar (SInt 1))])]) in
  root builder_root_a = Some (Node "root" VNone [Node "a" (VYaml (DScalar (SInt 1))) []])
  /\ to_yaml yaml_dump builder_root_a = inr "root: {a: 1}"
  /\ exists b' t',
      load_from_string yaml_load "root: {a: 1}" (init None) = Return b'
      /\ root b' = Some t'
      /\ (forall c, In c (children t') -> value c = VNone /\ children c = [])
      /\ t' <> Node "root" VNone [Node "a" (VYaml (DScalar (SInt 1))) []].
Proof.
  intros yaml_dump yaml_load. split; [reflexivity|]. split; [reflexivity|].
  apply (load_from_string_after_to_yaml_differs yaml_dump yaml_load builder_root_a
           (Node "root" VNone [Node "a" (VYaml (DScalar (SInt 1))) []]) "root: {a: 1}");
    [reflexivity|reflexivity|reflexivity|].
  exists (Node "a" (VYaml (DScalar (SInt 1))) []). split; [left; reflexivity|].
  left. discriminate.
Defined.

(** What comes back for [root: {a: 1}] and for [root: {a: {b: {}}}]. *)
Example load_root_a :
  load_from_data (DMap [to_dict (Node "root" VNone [Node "a" (VYaml (DScalar (SInt 1))) []])])
                 (init None)
  = Return (mkBuilder (Some (Node "root" (VYaml (DScalar (SInt 1))) [Node "a" VNone []]))
                      (Some [])).
Proof. reflexivity. Qed.

Example load_root_a_b :
  root builder_root_a_b = Some (Node "root" VNone [Node "a" VNone [Node "b" VNone []]])
  /\ load_from_data (DMap [to_dict (Node "root" VNone [Node "a" VNone [Node "b" VNone []]])])
                    (init None)
     = Return (mkBuilder (Some (Node "root" VNone [Node "a" VNone []; Node "b" VNone []]))
                         (Some [])).
Proof. split; reflexivity. Qed.

Lemma intended_children_in :
  forall m key w, In (key, w) m -> In (intended_tree key w) (intended_children m).
Proof.
  induction m as [|[k x] m IH]; intros key w H; simpl in *; [contradiction|].
  destruct H as [H|H]; [inversion H; subst; left; reflexivity|right; apply IH; exact H].
Qed.

Lemma intended_tree_not_leaf :
  forall key w,
    w <> DMap [] ->
    value (intended_tree key w) <> VNone \/ children (intended_tree key w) <> [].
Proof.
  intros key [s|l|[|[k x] m]] H; simpl.
  - left. discriminate.
  - left. discriminate.
  - contradiction.
  - right. discriminate.
Qed.

(** C7.  When the parser yields a dict whose first key is [root_key],
    with [v] beneath it.  On a builder without a root,
    [load_from_string] returns a builder whose root bears the name
    [root_key], with the cursor on it; but [v] is not merged beneath it
    as a tree: the root receives the last scalar or list of [v] as its
    own value, and every key of [v], at any depth, becomes a child of the
    root without value or children, so as soon as [v] is a map with an
    entry that is not an empty map the tree differs from the one the
    merge is meant to build.  On a builder with a root of the same name
    and the cursor in the tree it returns, the root keeping its name; on
    a builder with a root of another name it raises the root mismatch
    error and leaves the builder as it was, so with a root in place it
    returns only if the names agree. *)
Theorem load_from_string_root_and_merge :
  forall (yaml_load : string -> option pyvalue) (yaml_content : string)
         (b : FluentYAMLBuilder) (root_key : string) (v : pyvalue)
         (rest : list (string * pyvalue)),
    yaml_load yaml_content = Some (DMap ((root_key, v) :: rest)) ->
    (root b = None ->
       exists t',
         load_from_string yaml_load yaml_content b
         = Return (mkBuilder (Some t') (Some []))
         /\ name t' = root_key
         /\ value t' = final_value VNone v
         /\ children t' = map leaf (all_keys v)
         /\ (forall m key w,
                v = DMap m -> In (key, w) m -> w <> DMap [] ->
                t' <> intended_tree root_key v))
    /\ (forall r, root b = Some r -> name r = root_key -> cursor_in_tree b ->
          exists b', load_from_string yaml_load yaml_content b = Return b'
                     /\ root_name b' = Some root_key)
    /\ (forall r, root b = Some r -> name r <> root_key ->
          load_from_string yaml_load yaml_content b
          = Raise (ValueError ("Root mismatch! Expected '" ++ name r
                               ++ "', but found '" ++ root_key
                               ++ "' in YAML.")%string) b)
    /\ (forall r, root b = Some r ->
          returned (load_from_string yaml_load yaml_content b) = true ->
          name r = root_key).
Proof.
  intros yaml_load yaml_content b root_key v rest Hload.
  unfold load_from_string. rewrite Hload. unfold load_from_data.
  simpl truthy. cbv iota.
  split; [|split; [|split]].
  - intros Hroot. rewrite Hroot. unfold add_child. rewrite Hroot. unfold bind.
    change (new_node root_key (DScalar SNone)) with (Node root_key VNone []).
    rewrite parse_dict_to_tree_at_root. cbn [app].
    eexists. split; [reflexivity|]. split; [reflexivity|]. split; [reflexivity|].
    split; [reflexivity|].
    intros m key w Hv Hin Hw Heq. subst v.
    change (intended_tree root_key (DMap m))
      with (Node root_key VNone (intended_children m)) in Heq.
    assert (Hcs : map leaf (all_keys (DMap m)) = intended_children m) by congruence.
    pose proof (intended_children_in m key w Hin) as Hc. rewrite <- Hcs in Hc.
    apply in_map_iff in Hc. destruct Hc as (k & Hk & _).
    destruct (intended_tree_not_leaf key w Hw) as [Hval|Hch]; rewrite <- Hk in *;
      simpl in *; congruence.
  - intros r Hroot Hname Hcur. rewrite Hroot.
    apply String.eqb_eq in Hname as Heqb. rewrite Heqb. simpl negb. cbv iota.
    destruct (parse_dict_to_tree_returns v b Hcur) as (b' & Hret & _ & Hrn).
    exists b'. split; [exact Hret|].
    rewrite Hrn. unfold root_name. rewrite Hroot. simpl. congruence.
  - intros r Hroot Hname. rewrite Hroot.
    apply String.eqb_neq in Hname. rewrite Hname. reflexivity.
  - intros r Hroot. rewrite Hroot.
    destruct (name r =? root_key) eqn:E; simpl.
    + intros _. apply String.eqb_eq. exact E.
    + discriminate.
Qed.

Lemma load_from_string_root_and_merge_witness :
  let yaml_load := fun _ : string => Some (DMap [("root", DMap [("a", DScalar (SInt 1))])]) in
  (exists t',
      load_from_string yaml_load "root: {a: 1}" (init None)
      = Return (mkBuilder (Some t') (Some []))
      /\ name t' = "root"
      /\ value t' = VYaml (DScalar (SInt 1))
      /\ children t' = [Node "a" VNone []]
      /\ t' <> Node "root" VNone [Node "a" (VYaml (DScalar (SInt 1))) []])
  /\ load_from_string yaml_load "root: {a: 1}" (init (Some "other"))
     = Raise (ValueError "Root mismatch! Expected 'other', but found 'root' in YAML.")
             (init (Some "other")).
Proof.
  intros yaml_load.
  destruct (load_from_string_root_and_merge yaml_load "root: {a: 1}" (init None)
              "root" (DMap [("a", DScalar (SInt 1))]) [] eq_refl) as (Hfresh & _ & _ & _).
  destruct (load_from_string_root_and_merge yaml_load "root: {a: 1}" (init (Some "other"))
              "root" (DMap [("a", DScalar (SInt 1))]) [] eq_refl) as (_ & _ & Hbad & _).
  split.
  - destruct (Hfresh eq_refl) as (t' & Hret & Hname & Hval & Hcs & Hdiff).
    exists t'. split; [exact Hret|]. split; [exact Hname|]. split; [exact Hval|].
    split; [exact Hcs|].
    apply (Hdiff [("a", DScalar (SInt 1))] "a" (DScalar (SInt 1)) eq_refl);
      [left; reflexivity|discriminate].
  - apply (Hbad (Node "other" VNone []) eq_refl). simpl. discriminate.
Defined.


(* ================================================================== *)
(** ** to_dict                                                         *)
(* ================================================================== *)

Lemma to_dict_branch :
  forall nm cs, to_dict (Node nm VNone cs) = (nm, DMap (to_dict_children cs [])).
Proof. intros nm cs. reflexivity. Qed.

Lemma dict_get_merge_child_same :
  forall key v result,
    dict_get String.eqb key (merge_child key v result)
    = merge_value (dict_get String.eqb key result) v.
Proof.
  intros key v result. unfold merge_child, merge_value.
  destruct (dict_get String.eqb key result) as [[s|l|m]|];
    apply (dict_get_set_same String.eqb string_eqb_spec).
Qed.

Lemma dict_get_merge_child_other :
  forall key k v result,
    key <> k ->
    dict_get String.eqb key (merge_child k v result) = dict_get String.eqb key result.
Proof.
  intros key k v result Hne. unfold merge_child.
  destruct (dict_get String.eqb k result) as [[s|l|m]|];
    apply (dict_get_set_other String.eqb string_eqb_spec); exact Hne.
Qed.

(** What the loop of [to_dict] leaves under a key: the values of the
    children of that name, combined one after the other. *)
Lemma to_dict_children_get :
  forall key cs result,
    dict_get String.eqb key (to_dict_children cs result)
    = fold_left merge_value (values_named key cs) (dict_get String.eqb key result).
Proof.
  intros key cs. induction cs as [|c cs IH]; intros result; simpl; [reflexivity|].
  destruct (to_dict c) as [k v] eqn:Hd. simpl. rewrite IH.
  destruct (k =? key) eqn:E.
  - apply String.eqb_eq in E. subst k. simpl.
    rewrite dict_get_merge_child_same. reflexivity.
  - apply String.eqb_neq in E.
    rewrite dict_get_merge_child_other by congruence. reflexivity.
Qed.

Lemma fold_merge_value_list :
  forall vs l, fold_left merge_value vs (Some (DList l)) = Some (DList (l ++ vs)).
Proof.
  induction vs as [|v vs IH]; intros l; simpl.
  - rewrite app_nil_r. reflexivity.
  - rewrite IH, <- app_assoc. reflexivity.
Qed.

Lemma fold_merge_value_first :
  forall A vs,
    is_list A = false ->
    fold_left merge_value (A :: vs) None
    = Some (match vs with [] => A | _ :: _ => DList (A :: vs) end).
Proof.
  intros A [|B vs] HA; simpl; [reflexivity|].
  destruct A as [s|l|m]; try discriminate; simpl; apply fold_merge_value_list.
Qed.

(** C2, as it holds.  For a parent without a value of its own: when the
    first child named [key] converts to a value [A] that is not a list,
    the map of the parent holds under [key] the value [A] alone if there
    is no other child of that name, and otherwise the list of the values
    of all the children of that name, in the order of the children. *)
Theorem to_dict_combines_same_named_children :
  forall (nm : string) (cs : list YAMLNode) (key : string) (A : pyvalue)
         (others : list pyvalue),
    values_named key cs = A :: others ->
    is_list A = false ->
    exists m,
      to_dict (Node nm VNone cs) = (nm, DMap m)
      /\ dict_get String.eqb key m
         = Some (match others with [] => A | _ :: _ => DList (A :: others) end).
Proof.
  intros nm cs key A others Hvals HA.
  exists (to_dict_children cs []). split; [apply to_dict_branch|].
  rewrite to_dict_children_get, Hvals. simpl dict_get.
  apply fold_merge_value_first. exact HA.
Qed.

Lemma to_dict_combines_same_named_children_witness :
  (exists m,
      to_dict (Node "routes" VNone [route_1; route_2]) = ("routes", DMap m)
      /\ dict_get String.eqb "route" m
         = Some (DList [DScalar (SStr "A"); DMap [("to", DScalar (SStr "B"))]]))
  /\ (exists m,
         to_dict (Node "routes" VNone [route_1; route_2; route_3]) = ("routes", DMap m)
         /\ dict_get String.eqb "route" m
            = Some (DList [DScalar (SStr "A"); DMap [("to", DScalar (SStr "B"))];
                           DScalar (SStr "C")])).
Proof.
  split.
  - apply (to_dict_combines_same_named_children "routes" [route_1; route_2] "route"
             (DScalar (SStr "A")) [DMap [("to", DScalar (SStr "B"))]]); reflexivity.
  - apply (to_dict_combines_same_named_children "routes" [route_1; route_2; route_3] "route"
             (DScalar (SStr "A")) [DMap [("to", DScalar (SStr "B"))]; DScalar (SStr "C")]);
      reflexivity.
Defined.

(** When the first child of a name holds a list, the values of the later
    children of that name are appended to that list. *)
Lemma to_dict_first_list_is_extended :
  forall nm cs key l others,
    values_named key cs = DList l :: others ->
    dict_get String.eqb key (to_dict_children cs []) = Some (DList (l ++ others))
    /\ to_dict (Node nm VNone cs) = (nm, DMap (to_dict_children cs [])).
Proof.
  intros nm cs key l others Hvals. split; [|reflexivity].
  rewrite to_dict_children_get, Hvals. simpl. apply fold_merge_value_list.
Qed.

(** C2 as stated fails: with a first [route] that holds the list [[1]]
    and a second [route] of value [2], the parent maps [route] to
    [[1, 2]], not to the list of the two values; and the children of a
    parent that holds a value of its own do not appear at all. *)
Lemma to_dict_combines_counterexample :
  to_dict (Node "routes" VNone [route_list; route_3])
  = ("routes", DMap [("route", DList [DScalar (SInt 1); DScalar (SStr "C")])])
  /\ snd (to_dict (Node "routes" VNone [route_list; route_3]))
     <> DMap [("route", DList [snd (to_dict route_list); snd (to_dict route_3)])]
  /\ to_dict (Node "routes" (VYaml (DScalar (SInt 5))) [route_1; route_3])
     = ("routes", DScalar (SInt 5)).
Proof.
  split; [reflexivity|]. split; [|reflexivity].
  simpl. discriminate.
Qed.

(* ================================================================== *)
(** ** PortNetplanRepositoryYaml.create                                *)
(* ================================================================== *)

(** C3.  On a new repository, [create] returns the map with the single
    top-level key [network]; beneath it the scalars [version] and
    [renderer] and the map [ethernets], which holds under [ens3] the
    scalar [dhcp4], the list [addresses], the list [routes] of one map
    with [to] and [via], and the map [nameservers] with its list
    [addresses]. *)
Theorem create_returns_netplan_map :
  forall data : Network,
    fst (create data netplan_builder)
    = inr (DMap
             [("network",
               DMap
                 [("version", DScalar (SInt 2));
                  ("renderer", DScalar (SStr "networkd"));
                  ("ethernets",
                   DMap
                     [("ens3",
                       DMap
                         [("dhcp4", DScalar (SStr "no"));
                          ("addresses",
                           DList [DScalar (SStr (ip_address (net_ip_address data) ++ "/24")%string)]);
                          ("routes",
                           DList [DMap [("to", DScalar (SStr "0.0.0.0/0"));
                                        ("via", DScalar (SStr (ip_address (net_gateway data))))]]);
                          ("nameservers",
                           DMap [("addresses",
                                  DList [DScalar (SStr "8.8.8.8");
                                         DScalar (SStr "8.8.4.4")])])])])])]).
Proof. intros data. reflexivity. Qed.

(* ================================================================== *)
(** ** str.format and ManagerStrategy.categorize                       *)
(* ================================================================== *)

Lemma format_brace_free :
  forall s vm, brace_free s = true -> format_from None s vm = inr s.
Proof.
  induction s as [|c s IH]; intros vm H; simpl in *; [reflexivity|].
  apply andb_true_iff in H. destruct H as [H Hs].
  apply andb_true_iff in H. destruct H as [Hl Hr].
  apply negb_true_iff in Hl. apply negb_true_iff in Hr.
  rewrite Hl, Hr, (IH vm Hs). reflexivity.
Qed.

(** A template made of text without braces around one [{vm_instance}]
    is turned into the same text around the instance name. *)
Lemma format_vm_instance_substitutes :
  forall before after vm,
    brace_free before = true -> brace_free after = true ->
    format_vm_instance (before ++ "{vm_instance}" ++ after) vm
    = inr (before ++ vm ++ after)%string.
Proof.
  unfold format_vm_instance.
  induction before as [|c before IH]; intros after vm Hb Ha.
  - simpl. rewrite (format_brace_free after vm Ha). reflexivity.
  - simpl in Hb. apply andb_true_iff in Hb. destruct Hb as [H Hs].
    apply andb_true_iff in H. destruct H as [Hl Hr].
    apply negb_true_iff in Hl. apply negb_true_iff in Hr.
    change ((String c before ++ "{vm_instance}" ++ after)%string)
      with (String c (before ++ "{vm_instance}" ++ after)%string).
    cbn [format_from]. rewrite Hl, Hr, (IH after vm Hs Ha). reflexivity.
Qed.

Lemma dict_get_setdefault_same :
  forall (K V : Type) (eqb : K -> K -> bool),
    (forall a b, eqb a b = true <-> a = b) ->
    forall k (v : V) d,
      dict_get eqb k (dict_setdefault eqb k v d)
      = Some (match dict_get eqb k d with Some w => w | None => v end).
Proof.
  intros K V eqb Hspec k v d. unfold dict_setdefault.
  destruct (dict_get eqb k d) as [w|] eqn:E; [exact E|].
  apply dict_get_set_same. exact Hspec.
Qed.

Section ManagerStrategyFacts.
Variable Runner : Type.
Variable CommandRunnerType : Type.
Variable get_enum_from_value : string -> exn + CommandRunnerType.
Variable str_format : string -> string -> exn + string.

(** C4.  With exactly one instance [vm] of the role of the strategy,
    and a template whose two texts format and whose runner kind
    resolves, [categorize] returns a plan that holds at [vm] and the
    index of the template the command with the formatted description
    and command and the runner of that kind, and that agrees with the
    plan it received everywhere else.  With no instance, or with two or
    more, it returns the plan it received. *)
Theorem categorize_manager :
  forall (self : ManagerStrategy Runner CommandRunnerType) (command : CommandEntity.t)
         (executable_commands : plan Runner),
    let names := find_vm_instances_by_type (vm_repository self) (strategy_vm_type self) in
    let categorized :=
      categorize get_enum_from_value str_format self command executable_commands in
    (forall vm d c kind r,
        names = [vm] ->
        str_format (CommandEntity.description command) vm = inr d ->
        str_format (CommandEntity.command command) vm = inr c ->
        get_enum_from_value (CommandEntity.runner command) = inr kind ->
        get_runner (command_runner_factory self) kind = inr r ->
        exists p',
          categorized = Return p'
          /\ plan_get vm (CommandEntity.index command) p'
             = Some (ExecutableCommandEntity.mk vm d c r)
          /\ forall vm' idx',
              (vm', idx') <> (vm, CommandEntity.index command) ->
              plan_get vm' idx' p' = plan_get vm' idx' executable_commands)
    /\ (List.length names <> 1 -> categorized = Return executable_commands).
Proof.
  intros self command executable_commands names categorized. split.
  - intros vm d c kind r Hnames Hd Hc Hkind Hr.
    unfold categorized, categorize. fold names. rewrite Hnames, Hd, Hc, Hkind, Hr.
    unfold plan_set.
    rewrite (dict_get_setdefault_same _ _ String.eqb string_eqb_spec).
    eexists. split; [reflexivity|]. split.
    + unfold plan_get.
      rewrite (dict_get_set_same String.eqb string_eqb_spec).
      apply (dict_get_set_same Z.eqb Z_eqb_spec).
    + intros vm' idx' Hne. unfold plan_get.
      destruct (string_dec vm' vm) as [->|Hvm].
      * rewrite (dict_get_set_same String.eqb string_eqb_spec).
        assert (Hidx : idx' <> CommandEntity.index command) by congruence.
        rewrite (dict_get_set_other Z.eqb Z_eqb_spec) by exact Hidx.
        destruct (dict_get String.eqb vm executable_commands); reflexivity.
      * rewrite (dict_get_set_other String.eqb string_eqb_spec) by exact Hvm.
        rewrite (dict_get_setdefault_other String.eqb string_eqb_spec) by exact Hvm.
        reflexivity.
  - intros Hlen. unfold categorized, categorize. fold names.
    destruct names as [|vm [|vm2 rest]]; try reflexivity.
    simpl in Hlen. contradiction.
Qed.
End ManagerStrategyFacts.

Lemma categorize_manager_witness :
  let self := mkStrategy MANAGER directory_one_manager factory_by_name in
  let twins := mkStrategy MANAGER directory_two_managers factory_by_name in
  (exists p',
      categorize enum_of_value format_vm_instance self echo_template []
      = Return p'
      /\ plan_get "mgr-1" 3 p'
         = Some (ExecutableCommandEntity.mk "mgr-1" "greet mgr-1" "echo mgr-1" "multipass")
      /\ forall vm' idx', (vm', idx') <> ("mgr-1", 3%Z) -> plan_get vm' idx' p' = None)
  /\ categorize enum_of_value format_vm_instance twins echo_template []
     = Return [].
Proof.
  intros self twins. split.
  - destruct (categorize_manager string string enum_of_value format_vm_instance
                self echo_template []) as [Hone _].
    apply (Hone "mgr-1" "greet mgr-1" "echo mgr-1" "multipass" "multipass");
      reflexivity.
  - destruct (categorize_manager string string enum_of_value format_vm_instance
                twins echo_template []) as [_ Hmany].
    apply Hmany. simpl. discriminate.
Defined.

(* ================================================================== *)
(** ** CommandRunnerUI.run                                             *)
(* ================================================================== *)

Section CommandRunnerUIFacts.
Variable Runner : Type.
Variable Action : Type.
Variable Value : Type.
Variable Failure : Type.
Variable execute : dict Z (ExecutableCommandEntity.t Runner)
                   -> Coroutine Action Value Failure.

Lemma create_tasks_of_keys :
  forall (command_list : plan Runner) (instances : list string),
    (forall vm, In vm instances -> In vm (dict_keys command_list)) ->
    exists tasks,
      create_tasks execute command_list instances = inr tasks
      /\ List.length tasks = List.length instances
      /\ forall i vm commands,
          nth_error instances i = Some vm ->
          dict_get String.eqb vm command_list = Some commands ->
          nth_error tasks i = Some (execute commands).
Proof.
  intros command_list instances.
  induction instances as [|vm rest IH]; intros Hkeys; simpl.
  - exists []. split; [reflexivity|]. split; [reflexivity|].
    intros [|i] vm commands H; discriminate.
  - destruct (dict_get_keys String.eqb string_eqb_spec vm command_list) as [commands Hc].
    { apply Hkeys. left. reflexivity. }
    destruct IH as (tasks & Htasks & Hlen & Hnth).
    { intros vm' Hin. apply Hkeys. right. exact Hin. }
    rewrite Hc, Htasks. exists (execute commands :: tasks).
    split; [reflexivity|]. split; [simpl; rewrite Hlen; reflexivity|].
    intros [|i] vm' commands' Hi Hget; simpl in *.
    + inversion Hi; subst. rewrite Hc in Hget. inversion Hget; subst. reflexivity.
    + apply (Hnth i vm' commands' Hi Hget).
Qed.

Lemma actions_of_app :
  forall i (l1 l2 : list (event Action)),
    actions_of i (l1 ++ l2) = actions_of i l1 ++ actions_of i l2.
Proof.
  intros i l1 l2. induction l1 as [|e l1 IH]; simpl; [reflexivity|].
  destruct e as [|j a|u|]; try exact IH.
  destruct (Nat.eqb i j); simpl; rewrite IH; reflexivity.
Qed.

Lemma actions_of_task :
  forall i j (acts : list Action),
    actions_of i (map (TaskAction j) acts) = if Nat.eqb i j then acts else [].
Proof.
  intros i j acts. induction acts as [|a acts IH]; simpl.
  - destruct (Nat.eqb i j); reflexivity.
  - destruct (Nat.eqb i j); rewrite IH; reflexivity.
Qed.

Lemma actions_of_drain :
  forall (pending : list (list Action)) j i,
    actions_of i (drain j pending)
    = if Nat.ltb i j then []
      else match nth_error pending (i - j) with Some acts => acts | None => [] end.
Proof.
  induction pending as [|acts pending IH]; intros j i; simpl.
  - destruct (Nat.ltb i j); [reflexivity|]. destruct (i - j); reflexivity.
  - rewrite actions_of_app, actions_of_task, IH.
    destruct (Nat.eqb i j) eqn:E.
    + apply Nat.eqb_eq in E. subst j.
      assert (H1 : Nat.ltb i (S i) = true) by (apply Nat.ltb_lt; lia).
      assert (H2 : Nat.ltb i i = false) by (apply Nat.ltb_ge; lia).
      rewrite H1, H2, Nat.sub_diag, app_nil_r. reflexivity.
    + apply Nat.eqb_neq in E. simpl. destruct (Nat.ltb i j) eqn:L.
      * apply Nat.ltb_lt in L.
        assert (H1 : Nat.ltb i (S j) = true) by (apply Nat.ltb_lt; lia).
        rewrite H1. reflexivity.
      * apply Nat.ltb_ge in L.
        assert (H1 : Nat.ltb i (S j) = false) by (apply Nat.ltb_ge; lia).
        rewrite H1. replace (i - j) with (S (i - S j)) by lia. reflexivity.
Qed.

(** Whatever the schedule, every task performs all its actions, in
    their order, while [gather] is awaited. *)
Lemma actions_of_event_loop :
  forall schedule (pending : list (list Action)) i,
    actions_of i (event_loop schedule pending)
    = match nth_error pending i with Some acts => acts | None => [] end.
Proof.
  induction schedule as [|j schedule IH]; intros pending i; simpl.
  - rewrite actions_of_drain. simpl. rewrite Nat.sub_0_r. reflexivity.
  - destruct (nth_error pending j) as [[|a rest]|] eqn:Hj; try apply IH.
    simpl. rewrite IH. destruct (Nat.eqb i j) eqn:E.
    + apply Nat.eqb_eq in E. subst j.
      rewrite (nth_error_list_update_same _ _ _ _ _ Hj), Hj. reflexivity.
    + apply Nat.eqb_neq in E.
      rewrite nth_error_list_update_other by congruence. reflexivity.
Qed.

Lemma status_updates_app :
  forall l1 l2 : list (event Action),
    status_updates (l1 ++ l2) = status_updates l1 ++ status_updates l2.
Proof.
  intros l1 l2. induction l1 as [|e l1 IH]; simpl; [reflexivity|].
  destruct e; simpl; rewrite ?IH; reflexivity.
Qed.

Lemma status_updates_drain :
  forall (pending : list (list Action)) j, status_updates (drain j pending) = [].
Proof.
  induction pending as [|acts pending IH]; intros j; simpl; [reflexivity|].
  rewrite status_updates_app, IH, app_nil_r.
  induction acts as [|a acts IHa]; simpl; [reflexivity|exact IHa].
Qed.

Lemma status_updates_event_loop :
  forall schedule (pending : list (list Action)),
    status_updates (event_loop schedule pending) = [].
Proof.
  induction schedule as [|j schedule IH]; intros pending; simpl.
  - apply status_updates_drain.
  - destruct (nth_error pending j) as [[|a rest]|]; simpl; apply IH.
Qed.

(** The shape of the trace of [run]. *)
Lemma run_terminal_trace :
  forall (command_list : plan Runner) (schedule : list nat),
    exists body results,
      run execute schedule (runner_init command_list)
      = (StartInThread :: body ++ [UpdateStatus terminal_status; AwaitUiThread],
         inr results)
      /\ status_updates body = [].
Proof.
  intros command_list schedule.
  destruct (create_tasks_of_keys command_list (dict_keys command_list))
    as (tasks & Htasks & _); [auto|].
  exists (event_loop schedule (map actions tasks)), (map completion tasks).
  unfold run, runner_init, gather; simpl. rewrite Htasks.
  split; [reflexivity|apply status_updates_event_loop].
Qed.

(** C5.  For every plan and every schedule of the event loop, [run]
    returns a list with one result per instance, in the order of the
    instances: the result of an instance is the way its own coroutine
    ended, a value or the exception it raised.  The trace is the start
    of the UI, then the actions of the tasks, then one status update,
    then the wait for the UI thread; in the part before the status
    update every instance has performed all the actions of its
    coroutine, whatever the end of the others. *)
Theorem run_aggregates_per_instance :
  forall (command_list : plan Runner) (schedule : list nat),
    exists body results,
      run execute schedule (runner_init command_list)
      = (StartInThread :: body ++ [UpdateStatus terminal_status; AwaitUiThread],
         inr results)
      /\ List.length results = List.length (dict_keys command_list)
      /\ status_updates body = []
      /\ forall i vm commands,
          nth_error (dict_keys command_list) i = Some vm ->
          dict_get String.eqb vm command_list = Some commands ->
          nth_error results i = Some (completion (execute commands))
          /\ actions_of i body = actions (execute commands).
Proof.
  intros command_list schedule.
  destruct (create_tasks_of_keys command_list (dict_keys command_list))
    as (tasks & Htasks & Hlen & Hnth); [auto|].
  exists (event_loop schedule (map actions tasks)), (map completion tasks).
  unfold run, runner_init, gather; simpl. rewrite Htasks.
  split; [reflexivity|]. split; [rewrite length_map; exact Hlen|].
  split; [apply status_updates_event_loop|].
  intros i vm commands Hi Hget. specialize (Hnth i vm commands Hi Hget).
  split.
  - rewrite nth_error_map, Hnth. reflexivity.
  - rewrite actions_of_event_loop, nth_error_map, Hnth. reflexivity.
Qed.

(** C10.  The trace of [run] holds exactly one status update of [run],
    and it is the update with task [finished], step [execution], result
    [success] and instance [all], whatever the results of the
    instances. *)
Theorem run_terminal_status_is_success :
  forall (command_list : plan Runner) (schedule : list nat),
    status_updates (fst (run execute schedule (runner_init command_list)))
    = [mkStatus "finished" "execution" "success" "all"].
Proof.
  intros command_list schedule.
  destruct (run_terminal_trace command_list schedule) as (body & results & Hrun & Hbody).
  rewrite Hrun. simpl. rewrite status_updates_app, Hbody. reflexivity.
Qed.
End CommandRunnerUIFacts.

Lemma run_aggregates_per_instance_witness :
  exists body results,
    run execute_a_fails [1; 0; 1] (runner_init plan_a_b)
    = (StartInThread :: body ++ [UpdateStatus terminal_status; AwaitUiThread], inr results)
    /\ List.length results = 2
    /\ nth_error results 0 = Some (inr "cmd1 failed")
    /\ nth_error results 1 = Some (inl "done")
    /\ actions_of 0 body = ["cmd1"]
    /\ actions_of 1 body = ["cmd3"].
Proof.
  destruct (run_aggregates_per_instance string string string string execute_a_fails
              plan_a_b [1; 0; 1]) as (body & results & Hrun & Hlen & _ & Hall).
  exists body, results.
  destruct (Hall 0 "a" [(1%Z, ExecutableCommandEntity.mk "a" "first" "cmd1" "multipass");
                        (2%Z, ExecutableCommandEntity.mk "a" "second" "cmd2" "multipass")]
                 eq_refl eq_refl) as [Ha Hacts_a].
  destruct (Hall 1 "b" [(1%Z, ExecutableCommandEntity.mk "b" "third" "cmd3" "multipass")]
                 eq_refl eq_refl) as [Hb Hacts_b].
  split; [exact Hrun|]. split; [exact Hlen|].
  split; [exact Ha|]. split; [exact Hb|]. split; [exact Hacts_a|exact Hacts_b].
Defined.

Example run_a_fails_b_succeeds :
  run execute_a_fails [1; 0; 1] (runner_init plan_a_b)
  = ([StartInThread; TaskAction 1 "cmd3"; TaskAction 0 "cmd1";
      UpdateStatus (mkStatus "finished" "execution" "success" "all"); AwaitUiThread],
     inr [inr "cmd1 failed"; inl "done"]).
Proof. reflexivity. Qed.

(* ================================================================== *)
(** * Further properties of the builder                                *)
(* ================================================================== *)

(** ** add_child, insert_at_current and up *)

(** X1.  With the cursor in the tree, [add_child] without [stay] followed
    by [up] is [add_child] with [stay]: the same tree, the cursor back
    where it was. *)
Theorem add_child_then_up :
  forall (nm : string) (v : pyvalue) (b : FluentYAMLBuilder),
    cursor_in_tree b ->
    add_child nm v false b >>= up = add_child nm v true b.
Proof.
  intros nm v b (t & p & n & Hr & Hc & Hg).
  unfold add_child. rewrite Hr, Hc, Hg. simpl.
  unfold up. simpl. rewrite parent_snoc. reflexivity.
Qed.

Lemma add_child_then_up_witness :
  cursor_in_tree (mkBuilder (Some tree_a_b) (Some [0]))
  /\ add_child "c" (DScalar (SInt 7)) false (mkBuilder (Some tree_a_b) (Some [0])) >>= up
     = add_child "c" (DScalar (SInt 7)) true (mkBuilder (Some tree_a_b) (Some [0])).
Proof.
  assert (H : cursor_in_tree (mkBuilder (Some tree_a_b) (Some [0]))).
  { exists tree_a_b, [0], (Node "a" VNone [Node "b" VNone []]). repeat split. }
  split; [exact H|].
  exact (add_child_then_up "c" (DScalar (SInt 7)) (mkBuilder (Some tree_a_b) (Some [0])) H).
Defined.

(** X2.  With the cursor in the tree, [insert_at_current] does what
    [add_child] does with [stay]; on a builder without a root it raises,
    where [add_child] makes the new node the root. *)
Theorem insert_at_current_is_add_child_stay :
  forall (nm : string) (v : pyvalue) (b : FluentYAMLBuilder),
    (cursor_in_tree b -> insert_at_current nm v b = add_child nm v true b)
    /\ (root b = None ->
        insert_at_current nm v b = Raise AttributeError b
        /\ add_child nm v true b = Return (mkBuilder (Some (new_node nm v)) (Some []))).
Proof.
  intros nm v b. split.
  - intros (t & p & n & Hr & Hc & Hg).
    unfold insert_at_current, add_child. rewrite Hr, Hc, Hg. reflexivity.
  - intros Hr. unfold insert_at_current, add_child. rewrite Hr. split; reflexivity.
Qed.

Lemma insert_at_current_is_add_child_stay_witness :
  insert_at_current "c" (DScalar (SInt 7)) (mkBuilder (Some tree_a_b) (Some [0]))
  = add_child "c" (DScalar (SInt 7)) true (mkBuilder (Some tree_a_b) (Some [0]))
  /\ insert_at_current "c" (DScalar (SInt 7)) (init None) = Raise AttributeError (init None).
Proof.
  split.
  - apply (proj1 (insert_at_current_is_add_child_stay "c" (DScalar (SInt 7))
                    (mkBuilder (Some tree_a_b) (Some [0])))).
    exists tree_a_b, [0], (Node "a" VNone [Node "b" VNone []]). repeat split.
  - apply (proj2 (insert_at_current_is_add_child_stay "c" (DScalar (SInt 7)) (init None))).
    reflexivity.
Defined.

Lemma size_node : forall nm v cs, size (Node nm v cs) = S (size_children cs).
Proof. intros nm v cs. reflexivity. Qed.

Lemma size_children_app :
  forall cs1 cs2, size_children (cs1 ++ cs2) = size_children cs1 + size_children cs2.
Proof.
  induction cs1 as [|c cs1 IH]; intros cs2; simpl; [reflexivity|].
  rewrite IH. lia.
Qed.

Lemma size_children_update :
  forall f cs i c,
    nth_error cs i = Some c ->
    size_children (list_update i f cs) + size c = size_children cs + size (f c).
Proof.
  intros f cs. induction cs as [|x cs IH]; intros [|i] c H; simpl in *; try discriminate.
  - inversion H; subst. lia.
  - specialize (IH i c H). lia.
Qed.

Lemma size_update :
  forall f p t n,
    get t p = Some n ->
    size (update f p t) + size n = size t + size (f n).
Proof.
  intros f p. induction p as [|i p IH]; intros t n H; simpl in H.
  - inversion H; subst. simpl update. lia.
  - destruct (nth_error (children t) i) as [c|] eqn:Hn; [|discriminate].
    destruct t as [nm v cs]. simpl in Hn.
    change (update f (i :: p) (Node nm v cs))
      with (Node nm v (list_update i (update f p) cs)).
    rewrite !size_node.
    pose proof (size_children_update (update f p) cs i c Hn) as Hs.
    specialize (IH c n H). lia.
Qed.

Lemma get_update_preserved :
  forall f,
    (forall n, name (f n) = name n /\ value (f n) = value n
               /\ exists extra, children (f n) = children n ++ extra) ->
    forall p t q m,
      get t q = Some m ->
      exists m', get (update f p t) q = Some m' /\ name m' = name m /\ value m' = value m.
Proof.
  intros f Hf. induction p as [|i p IH]; intros t q m Hq.
  - simpl. destruct (Hf t) as (Hn & Hv & extra & Hc).
    destruct q as [|j q]; simpl in *.
    + inversion Hq; subst. exists (f m). repeat split; assumption.
    + destruct (nth_error (children t) j) as [c|] eqn:Hj; [|discriminate].
      rewrite Hc, nth_error_app1 by (apply nth_error_Some; congruence).
      rewrite Hj. exists m. repeat split. exact Hq.
  - destruct q as [|j q]; simpl in *.
    + inversion Hq; subst. eexists. repeat split.
    + destruct (nth_error (children t) j) as [c|] eqn:Hj; [|discriminate].
      destruct (Nat.eq_dec i j) as [->|Hne].
      * rewrite (nth_error_list_update_same _ _ _ _ _ Hj). apply IH. exact Hq.
      * rewrite nth_error_list_update_other by exact Hne. rewrite Hj.
        exists m. repeat split. exact Hq.
Qed.

(** X3.  With the cursor on a node [n] of the tree, [add_child] returns;
    the tree has one node more; the new node, without children, is the
    last child of [n]; every position of the tree still holds a node of
    the same name and value; the cursor is on the new node, or with
    [stay] where it was. *)
Theorem add_child_adds_one_node :
  forall (nm : string) (v : pyvalue) (stay : bool) (t : YAMLNode) (p : path) (n : YAMLNode),
    get t p = Some n ->
    exists t',
      add_child nm v stay (mkBuilder (Some t) (Some p))
      = Return (mkBuilder (Some t')
                          (Some (if stay then p else p ++ [List.length (children n)])))
      /\ size t' = S (size t)
      /\ get t' (p ++ [List.length (children n)]) = Some (Node nm (store v) [])
      /\ forall q m,
          get t q = Some m ->
          exists m', get t' q = Some m' /\ name m' = name m /\ value m' = value m.
Proof.
  intros nm v stay t p n Hg.
  exists (update (node_add_child nm v) p t).
  unfold add_child. simpl. rewrite Hg. split; [reflexivity|]. split; [|split].
  - pose proof (size_update (node_add_child nm v) p t n Hg) as Hs.
    assert (Hn : size (node_add_child nm v n) = S (size n)).
    { destruct n as [x y cs]. unfold node_add_child. simpl name. simpl value.
      simpl children. rewrite !size_node, size_children_app. simpl. lia. }
    lia.
  - rewrite get_app, (get_update_same _ _ _ _ Hg). simpl.
    rewrite nth_error_app2 by lia. rewrite Nat.sub_diag. reflexivity.
  - apply get_update_preserved. intros x. split; [reflexivity|]. split; [reflexivity|].
    exists [new_node nm v]. reflexivity.
Qed.

Lemma add_child_adds_one_node_witness :
  exists t',
    add_child "c" (DScalar (SInt 7)) false (mkBuilder (Some tree_a_b) (Some [0]))
    = Return (mkBuilder (Some t') (Some [0; 1]))
    /\ size t' = 4
    /\ get t' [0; 1] = Some (Node "c" (VYaml (DScalar (SInt 7))) []).
Proof.
  destruct (add_child_adds_one_node "c" (DScalar (SInt 7)) false tree_a_b [0]
              (Node "a" VNone [Node "b" VNone []]) eq_refl)
    as (t' & Hret & Hsize & Hnew & _).
  exists t'. split; [exact Hret|]. split; [exact Hsize|exact Hnew].
Defined.

(** ** navigate_to, navigate_to_recursively and find_entry *)

Lemma navigate_loop_inv :
  forall keys node here traversed p,
    navigate_loop node here traversed keys = inr p ->
    exists q, p = here ++ q /\ resolves node keys q.
Proof.
  induction keys as [|key keys IH]; intros node here traversed p H; simpl in H.
  - inversion H; subst. exists []. split; [rewrite app_nil_r; reflexivity|constructor].
  - unfold find_child in H.
    destruct (find_child_from 0 key (children node)) as [[i c]|] eqn:E; [|discriminate].
    apply find_child_from_some in E. destruct E as (j & -> & Hn & Hname & Hfirst).
    apply IH in H. destruct H as (q & -> & Hq). simpl.
    exists (j :: q). split; [rewrite <- app_assoc; reflexivity|].
    econstructor; eauto.
Qed.

Lemma resolves_last_name :
  forall pre t nm p,
    resolves t (pre ++ [nm]) p -> exists n, get t p = Some n /\ name n = nm.
Proof.
  induction pre as [|k pre IH]; intros t nm p H; inversion H; subst.
  - inversion H7; subst. exists c. simpl. rewrite H2. split; reflexivity.
  - apply IH in H7. destruct H7 as (n & Hg & Hname).
    exists n. simpl. rewrite H2. split; assumption.
Qed.

(** X5.  A name that ends a path [navigate_to] can follow is a name
    [navigate_to_recursively] finds: it returns, with the cursor on a
    node of that name. *)
Theorem navigate_to_recursively_finds_navigable :
  forall (t : YAMLNode) (cursor : path) (pre : list string) (nm : string),
    returned (navigate_to (pre ++ [nm]) (mkBuilder (Some t) (Some cursor))) = true ->
    exists p n,
      navigate_to_recursively nm (mkBuilder (Some t) (Some cursor))
      = Return (mkBuilder (Some t) (Some p))
      /\ get t p = Some n /\ name n = nm.
Proof.
  intros t cursor pre nm H. unfold navigate_to in H. simpl in H.
  destruct (navigate_loop t [] [] (pre ++ [nm])) as [e|q] eqn:E; [discriminate|].
  apply navigate_loop_inv in E. destruct E as (q' & _ & Hq).
  destruct (resolves_last_name _ _ _ _ Hq) as (n & Hg & Hname).
  unfold navigate_to_recursively. simpl. rewrite recursive_search_first_named.
  unfold first_named.
  destruct (find (named nm) (preorder t)) as [[p m]|] eqn:F.
  - apply find_some in F. destruct F as [Hin Hnamed].
    exists p, m. split; [reflexivity|]. split.
    + apply preorder_in_get. exact Hin.
    + apply String.eqb_eq. exact Hnamed.
  - exfalso. apply (proj2 (preorder_in_get t q' n)) in Hg.
    pose proof (find_none _ _ F (q', n) Hg) as Hno.
    unfold named in Hno. simpl in Hno. apply String.eqb_neq in Hno. contradiction.
Qed.

Lemma navigate_to_recursively_finds_navigable_witness :
  exists p n,
    navigate_to_recursively "b" (mkBuilder (Some tree_a_b) (Some []))
    = Return (mkBuilder (Some tree_a_b) (Some p))
    /\ get tree_a_b p = Some n /\ name n = "b".
Proof.
  apply (navigate_to_recursively_finds_navigable tree_a_b [] ["a"] "b"). reflexivity.
Defined.



(** ** to_dict, build and find_all_entries *)

Lemma dict_get_none_keys :
  forall (V : Type) k (d : dict string V),
    dict_get String.eqb k d = None <-> existsb (String.eqb k) (dict_keys d) = false.
Proof.
  intros V k d. induction d as [|[k0 v0] d IH]; simpl; [split; reflexivity|].
  destruct (k =? k0); simpl; [split; discriminate|exact IH].
Qed.

Lemma dict_set_keys :
  forall (V : Type) k (v : V) (d : dict string V),
    dict_keys (dict_set String.eqb k v d)
    = if existsb (String.eqb k) (dict_keys d) then dict_keys d else dict_keys d ++ [k].
Proof.
  intros V k v d. induction d as [|[k0 v0] d IH]; simpl; [reflexivity|].
  destruct (k =? k0) eqn:E; simpl; [reflexivity|].
  rewrite IH. destruct (existsb (String.eqb k) (dict_keys d)); reflexivity.
Qed.

Lemma dict_set_absent :
  forall (V : Type) k (v : V) (d : dict string V),
    dict_get String.eqb k d = None -> dict_set String.eqb k v d = d ++ [(k, v)].
Proof.
  intros V k v d. induction d as [|[k0 v0] d IH]; simpl; [reflexivity|].
  destruct (k =? k0); [discriminate|]. intros H. rewrite (IH H). reflexivity.
Qed.

Lemma merge_child_keys :
  forall key v result,
    dict_keys (merge_child key v result)
    = if existsb (String.eqb key) (dict_keys result)
      then dict_keys result else dict_keys result ++ [key].
Proof.
  intros key v result. unfold merge_child.
  destruct (dict_get String.eqb key result) as [[s|l|m]|] eqn:E; apply dict_set_keys.
Qed.

(** X7.  The keys of the map that [to_dict] builds for a node without a
    value are the names of its children in the order in which each name
    first occurs; no key occurs twice, and merging never moves a key. *)
Theorem to_dict_keys_in_order_of_first_occurrence :
  forall (nm : string) (cs : list YAMLNode),
    exists m,
      to_dict (Node nm VNone cs) = (nm, DMap m)
      /\ dict_keys m = first_seen [] (map name cs)
      /\ NoDup (dict_keys m).
Proof.
  intros nm cs. exists (to_dict_children cs []). split; [reflexivity|].
  assert (Hkeys : forall cs result,
             dict_keys (to_dict_children cs result)
             = first_seen (dict_keys result) (map name cs)).
  { clear. induction cs as [|c cs IH]; intros result; simpl; [reflexivity|].
    destruct (to_dict c) as [k v] eqn:Hd.
    assert (Hk : k = name c) by (rewrite <- fst_to_dict, Hd; reflexivity).
    subst k. rewrite IH, merge_child_keys.
    destruct (existsb (String.eqb (name c)) (dict_keys result)); reflexivity. }
  assert (Hnodup : forall l ks, NoDup ks -> NoDup (first_seen ks l)).
  { clear. induction l as [|x l IH]; intros ks Hks; simpl; [exact Hks|].
    destruct (existsb (String.eqb x) ks) eqn:E; [apply IH; exact Hks|].
    apply IH. apply NoDup_app; [exact Hks|repeat constructor; intros []|].
    intros y Hy [Heq|[]]. subst y.
    assert (Ht : existsb (String.eqb x) ks = true).
    { apply existsb_exists. exists x. split; [exact Hy|apply String.eqb_refl]. }
    congruence. }
  split; [apply (Hkeys cs [])|].
  rewrite (Hkeys cs []). apply Hnodup. constructor.
Qed.

Lemma to_dict_children_distinct :
  forall cs result,
    NoDup (dict_keys result ++ map name cs) ->
    to_dict_children cs result = result ++ map to_dict cs.
Proof.
  induction cs as [|c cs IH]; intros result Hnd; simpl.
  - rewrite app_nil_r. reflexivity.
  - destruct (to_dict c) as [k v] eqn:Hd.
    assert (Hk : k = name c) by (rewrite <- fst_to_dict, Hd; reflexivity).
    subst k.
    assert (Habsent : dict_get String.eqb (name c) result = None).
    { apply dict_get_none_keys. destruct (existsb _ _) eqn:E; [|reflexivity].
      apply existsb_exists in E. destruct E as (y & Hy & Heq).
      apply String.eqb_eq in Heq. subst y. exfalso.
      simpl in Hnd. apply NoDup_remove_2 in Hnd. apply Hnd.
      apply in_or_app. left. exact Hy. }
    unfold merge_child. rewrite Habsent, (dict_set_absent _ _ _ _ Habsent).
    rewrite IH.
    + rewrite <- app_assoc. reflexivity.
    + unfold dict_keys in *. rewrite map_app. simpl. rewrite <- app_assoc. simpl.
      simpl in Hnd. exact Hnd.
Qed.

(** X8.  When the root holds no value and its children bear distinct
    names, [build] gives the map of the root name to the entries that
    [find_all_entries] lists, in the same order: one entry per child,
    under the name of the child. *)
Theorem build_is_map_of_entries :
  forall (t : YAMLNode) (cursor : path),
    value t = VNone ->
    NoDup (map name (children t)) ->
    exists entries,
      find_all_entries (mkBuilder (Some t) (Some cursor)) = inr entries
      /\ build (mkBuilder (Some t) (Some cursor)) = inr (DMap [(name t, DMap entries)])
      /\ map fst entries = map name (children t).
Proof.
  intros [nm v cs] cursor Hv Hnd. simpl in Hv, Hnd. subst v.
  exists (map to_dict cs). split; [reflexivity|]. split.
  - unfold build. cbn [root name].
    change (to_dict (Node nm VNone cs)) with (nm, DMap (to_dict_children cs [])).
    rewrite (to_dict_children_distinct cs []) by exact Hnd. reflexivity.
  - rewrite map_map. apply map_ext. apply fst_to_dict.
Qed.

Lemma build_is_map_of_entries_witness :
  exists entries,
    find_all_entries (mkBuilder (Some tree_search) (Some [])) = inr entries
    /\ build (mkBuilder (Some tree_search) (Some [])) = inr (DMap [("root", DMap entries)])
    /\ map fst entries = ["a"; "x"].
Proof.
  apply (build_is_map_of_entries tree_search []); [reflexivity|].
  simpl. repeat constructor; simpl; intuition discriminate.
Defined.

(** ** load_from_string: what comes back, and where the cursor ends *)

Lemma to_dict_leaves :
  forall cs,
    (forall c, In c cs -> value c = VNone /\ children c = []) ->
    cs = map leaf (map name cs)
    /\ map to_dict cs = map (fun c => (name c, DMap [])) cs.
Proof.
  induction cs as [|c cs IH]; intros H; simpl; [split; reflexivity|].
  destruct (H c (or_introl eq_refl)) as [Hv Hc].
  destruct IH as [IH1 IH2]; [intros x Hx; apply H; right; exact Hx|].
  destruct c as [nm v ccs]. simpl in Hv, Hc. subst v ccs.
  split; [unfold leaf at 1; simpl; f_equal; exact IH1|simpl; f_equal; exact IH2].
Qed.

Lemma all_keys_empty_maps :
  forall cs : list YAMLNode,
    all_keys_items (map (fun c => (name c, DMap [])) cs) = map name cs
    /\ forall v0, final_value_items (map (fun c => (name c, DMap [])) cs) v0 = v0.
Proof.
  induction cs as [|c cs [IH1 IH2]]; simpl; [split; reflexivity|].
  split; [f_equal; exact IH1|intros v0; apply IH2].
Qed.

(** X9.  For a tree whose root holds no value and whose children bear
    distinct names: loading, into a new builder, the map that [to_dict]
    gives yields the tree again, with the cursor on the root, exactly
    when no child of the root holds a value or has children. *)
Theorem load_gives_tree_back_iff_flat :
  forall t : YAMLNode,
    value t = VNone ->
    NoDup (map name (children t)) ->
    (load_from_data (DMap [to_dict t]) (init None)
     = Return (mkBuilder (Some t) (Some []))
     <-> forall c, In c (children t) -> value c = VNone /\ children c = []).
Proof.
  intros [nm v cs] Hv Hnd. simpl in Hv, Hnd. subst v.
  change (to_dict (Node nm VNone cs)) with (nm, DMap (to_dict_children cs [])).
  rewrite (to_dict_children_distinct cs []) by exact Hnd. simpl app.
  unfold load_from_data. simpl truthy. cbv iota. simpl root. cbv iota.
  unfold add_child. simpl root. cbv iota. unfold bind.
  change (new_node nm (DScalar SNone)) with (Node nm VNone []).
  rewrite parse_dict_to_tree_at_root. cbn [app children].
  set (d := DMap (map to_dict cs)). split.
  - intros H. assert (Hcs : map leaf (all_keys d) = cs) by congruence.
    intros c Hin. rewrite <- Hcs in Hin.
    apply in_map_iff in Hin. destruct Hin as (k & <- & _). split; reflexivity.
  - intros Hflat. destruct (to_dict_leaves cs Hflat) as [Hcs Hd].
    unfold d. rewrite Hd.
    change (all_keys (DMap (map (fun c => (name c, DMap [])) cs)))
      with (all_keys_items (map (fun c => (name c, DMap [])) cs)).
    change (final_value VNone (DMap (map (fun c => (name c, DMap [])) cs)))
      with (final_value_items (map (fun c => (name c, DMap [])) cs) VNone).
    destruct (all_keys_empty_maps cs) as [Hk Hf].
    rewrite Hk, Hf, <- Hcs. reflexivity.
Qed.

Lemma load_gives_tree_back_iff_flat_witness :
  load_from_data (DMap [to_dict (Node "root" VNone [leaf "a"; leaf "b"])]) (init None)
  = Return (mkBuilder (Some (Node "root" VNone [leaf "a"; leaf "b"])) (Some [])).
Proof.
  apply (proj2 (load_gives_tree_back_iff_flat (Node "root" VNone [leaf "a"; leaf "b"])
                  eq_refl
                  ltac:(simpl; repeat constructor; simpl; intuition discriminate))).
  intros c [<-|[<-|[]]]; split; reflexivity.
Defined.

Lemma add_child_stay_current :
  forall nm v b,
    cursor_in_tree b ->
    exists b', add_child nm v true b = Return b'
               /\ cursor_in_tree b' /\ current b' = current b.
Proof.
  intros nm v b Hb.
  destruct (add_child_keeps_cursor nm v true b Hb) as (b' & Hret & Hb' & _).
  exists b'. split; [exact Hret|]. split; [exact Hb'|].
  destruct Hb as (t & p & n & Hr & Hc & Hg).
  unfold add_child in Hret. rewrite Hr, Hc, Hg in Hret. inversion Hret; subst.
  simpl. symmetry. exact Hc.
Qed.

Lemma set_current_value_current :
  forall v b,
    cursor_in_tree b ->
    exists b', set_current_value v b = Return b'
               /\ cursor_in_tree b' /\ current b' = current b.
Proof.
  intros v b Hb.
  destruct (set_current_value_keeps_cursor v b Hb) as (b' & Hret & Hb' & _).
  exists b'. split; [exact Hret|]. split; [exact Hb'|].
  destruct Hb as (t & p & n & Hr & Hc & Hg).
  unfold set_current_value in Hret. rewrite Hr, Hc, Hg in Hret. inversion Hret; subst.
  simpl. symmetry. exact Hc.
Qed.

Lemma up_current :
  forall b p,
    cursor_in_tree b -> current b = Some p ->
    exists b', up b = Return b' /\ cursor_in_tree b' /\ current b' = Some (removelast p).
Proof.
  intros b p Hb Hp.
  destruct (up_keeps_cursor b Hb) as (b' & Hret & Hb' & _).
  exists b'. split; [exact Hret|]. split; [exact Hb'|].
  unfold up in Hret. rewrite Hp in Hret.
  destruct (path_cases p) as [->|(pp & i & ->)].
  - simpl in Hret. inversion Hret; subst. exact Hp.
  - rewrite parent_snoc in Hret. inversion Hret; subst. simpl.
    rewrite removelast_last. reflexivity.
Qed.

Lemma removelast_firstn_all :
  forall (p : path) k, removelast (firstn k p) = firstn (pred (Nat.min k (List.length p))) p.
Proof.
  intros p k. rewrite removelast_firstn_len, length_firstn, firstn_firstn.
  f_equal. lia.
Qed.

Lemma parse_dict_to_tree_cursor :
  forall d b p,
    cursor_in_tree b -> current b = Some p ->
    exists b', _parse_dict_to_tree d b = Return b'
               /\ cursor_in_tree b'
               /\ current b' = Some (firstn (List.length p - List.length (all_keys d)) p).
Proof.
  induction d as [s|l _|m IH] using pyvalue_tree_ind; intros b p Hb Hp.
  - destruct (set_current_value_current (VYaml (DScalar s)) b Hb) as (b' & Hret & Hb' & Hc).
    exists b'. split; [exact Hret|]. split; [exact Hb'|].
    rewrite Hc, Hp. simpl. rewrite Nat.sub_0_r, firstn_all. reflexivity.
  - destruct (set_current_value_current (VList l) b Hb) as (b' & Hret & Hb' & Hc).
    exists b'. split; [exact Hret|]. split; [exact Hb'|].
    rewrite Hc, Hp. simpl. rewrite Nat.sub_0_r, firstn_all. reflexivity.
  - rewrite parse_dict_map. change (all_keys (DMap m)) with (all_keys_items m).
    revert b p Hb Hp. induction IH as [|[key v] m Hv _ IHm]; intros b p Hb Hp.
    + exists b. split; [reflexivity|]. split; [exact Hb|].
      rewrite Hp. simpl. rewrite Nat.sub_0_r, firstn_all. reflexivity.
    + simpl in Hv.
      destruct (add_child_stay_current key (DScalar SNone) b Hb) as (b1 & H1 & Hb1 & Hc1).
      rewrite Hp in Hc1.
      destruct (Hv b1 p Hb1 Hc1) as (b2 & H2 & Hb2 & Hc2).
      destruct (up_current b2 _ Hb2 Hc2) as (b3 & H3 & Hb3 & Hc3).
      destruct (IHm b3 _ Hb3 Hc3) as (b4 & H4 & Hb4 & Hc4).
      exists b4. split; [simpl; rewrite H1, H2, H3; exact H4|]. split; [exact Hb4|].
      rewrite Hc4. f_equal. rewrite removelast_firstn_all.
      rewrite length_firstn, firstn_firstn. simpl all_keys_items.
      simpl List.length. rewrite length_app. f_equal. lia.
Qed.

(** X10.  Loading a document whose first key is the name of the root
    into a builder with the cursor at depth [n] returns, and leaves the
    cursor on the ancestor that lies as many levels higher as the
    document beneath that key has keys, at all depths together; on the
    root when it has [n] keys or more. *)
Theorem load_moves_cursor_up_per_key :
  forall (t : YAMLNode) (p : path) (n : YAMLNode) (v : pyvalue)
         (rest : list (string * pyvalue)),
    get t p = Some n ->
    exists b',
      load_from_data (DMap ((name t, v) :: rest)) (mkBuilder (Some t) (Some p)) = Return b'
      /\ current b' = Some (firstn (List.length p - List.length (all_keys v)) p).
Proof.
  intros t p n v rest Hg. unfold load_from_data. simpl. rewrite String.eqb_refl. simpl.
  destruct (parse_dict_to_tree_cursor v (mkBuilder (Some t) (Some p)) p)
    as (b' & Hret & _ & Hc); [|reflexivity|].
  - exists t, p, n. repeat split. exact Hg.
  - exists b'. split; [exact Hret|exact Hc].
Qed.

Lemma load_moves_cursor_up_per_key_witness :
  exists b',
    load_from_data (DMap [("root", DMap [("x", DScalar (SInt 1)); ("y", DMap [])])])
                   (mkBuilder (Some tree_a_b) (Some [0; 0])) = Return b'
    /\ current b' = Some [].
Proof.
  apply (load_moves_cursor_up_per_key tree_a_b [0; 0] (Node "b" VNone [])
           (DMap [("x", DScalar (SInt 1)); ("y", DMap [])]) []).
  reflexivity.
Defined.

(** ** The builder without a root *)

(** X11.  On a builder without a root, [navigate_to] with a non-empty
    path, [navigate_to_recursively], [delete_current],
    [insert_at_current], [up], [build], [find_entry] and
    [find_all_entries] all fail on the missing node and leave the
    builder as it is; [add_child] makes its node the root and puts the
    cursor there, with or without [stay].  The empty root name gives
    such a builder. *)
Theorem operations_without_root :
  forall (nm : string) (v : pyvalue) (keys : list string) (stay : bool)
         (remove_child : string -> YAMLNode -> YAMLNode),
    let b := init None in
    init (Some "") = b
    /\ navigate_to (nm :: keys) b = Raise AttributeError b
    /\ navigate_to_recursively nm b = Raise AttributeError b
    /\ delete_current remove_child b = Raise AttributeError b
    /\ insert_at_current nm v b = Raise AttributeError b
    /\ up b = Raise AttributeError b
    /\ build b = inl AttributeError
    /\ find_entry nm b = inl AttributeError
    /\ find_all_entries b = inl AttributeError
    /\ add_child nm v stay b = Return (mkBuilder (Some (Node nm (store v) [])) (Some [])).
Proof. intros nm v keys stay remove_child b. repeat split. Qed.

(** ** PortNetplanRepositoryYaml.create and load *)

(** X12.  [create] leaves the cursor of the builder on the [nameservers]
    node.  A second [create] on the same repository therefore puts its
    whole configuration inside the [nameservers] map of the first one,
    after its [addresses]; the entries of the first call stay as they
    were. *)
Theorem create_twice_nests_under_nameservers :
  forall first second : Network,
    let once := create first netplan_builder in
    fst once = inr (DMap [("network", DMap (netplan_entries first [name_servers]))])
    /\ current (snd once) = Some [2; 0; 3]
    /\ option_map name (current_node (snd once)) = Some "nameservers"
    /\ fst (create second (snd once))
       = inr (DMap [("network",
                     DMap (netplan_entries first
                             (name_servers :: netplan_entries second [name_servers])))]).
Proof. intros first second once. repeat split. Qed.

(** X13.  [load] answers a missing file with the empty map and leaves
    the builder alone.  On a new repository, a file whose first key is
    not [network] makes it raise the root mismatch error, which it does
    not catch; a file whose first key is [network] makes it return the
    map of a flat tree: every key of the file, at any depth, as an empty
    entry beneath [network], or, when the file holds a scalar or a list
    anywhere, the last of them as the value of [network]. *)
Theorem netplan_load_cases :
  forall (yaml_load : string -> option pyvalue),
    (forall builder,
        netplan_load yaml_load None builder = (inr (DMap []), builder))
    /\ (forall text key v rest,
           yaml_load text = Some (DMap ((key, v) :: rest)) ->
           key <> "network" ->
           netplan_load yaml_load (Some text) netplan_builder
           = (inl (ValueError ("Root mismatch! Expected 'network', but found '"
                               ++ key ++ "' in YAML.")%string),
              netplan_builder))
    /\ (forall text v rest,
           yaml_load text = Some (DMap (("network", v) :: rest)) ->
           let loaded := Node "network" (final_value VNone v) (map leaf (all_keys v)) in
           netplan_load yaml_load (Some text) netplan_builder
           = (inr (DMap [to_dict loaded]), mkBuilder (Some loaded) (Some []))).
Proof.
  intros yaml_load. split; [reflexivity|]. split.
  - intros text key v rest Hload Hkey.
    change netplan_builder with (mkBuilder (Some (Node "network" VNone [])) (Some [])).
    unfold netplan_load, load_from_string.
    rewrite Hload. unfold load_from_data. cbn -[String.eqb String.append].
    assert (E : ("network" =? key) = false) by (apply String.eqb_neq; congruence).
    rewrite E. reflexivity.
  - intros text v rest Hload loaded. unfold netplan_load, load_from_string.
    rewrite Hload. unfold load_from_data. simpl truthy. cbv iota.
    unfold netplan_builder, init. simpl.
    change (new_node "network" (DScalar SNone)) with (Node "network" VNone []).
    rewrite parse_dict_to_tree_at_root. reflexivity.
Qed.

Lemma netplan_load_cases_witness :
  let saved := DMap [("network", DMap (netplan_entries network_10 [name_servers]))] in
  let yaml_load := fun _ : string => Some saved in
  fst (create network_10 netplan_builder) = inr saved
  /\ fst (netplan_load yaml_load (Some "network: ...") netplan_builder)
     = inr (DMap [("network", DList [DScalar (SStr "8.8.8.8"); DScalar (SStr "8.8.4.4")])])
  /\ netplan_load (fun _ : string => Some (DMap [("other", DMap [])])) (Some "other: {}")
                  netplan_builder
     = (inl (ValueError "Root mismatch! Expected 'network', but found 'other' in YAML."),
        netplan_builder).
Proof.
  intros saved yaml_load. split; [reflexivity|]. split.
  - destruct (netplan_load_cases yaml_load) as (_ & _ & Hok).
    rewrite (Hok "network: ..." (DMap (netplan_entries network_10 [name_servers])) []
                 eq_refl).
    reflexivity.
  - destruct (netplan_load_cases (fun _ : string => Some (DMap [("other", DMap [])])))
      as (_ & Hbad & _).
    apply (Hbad "other: {}" "other" (DMap []) [] eq_refl). discriminate.
Defined.

(* ================================================================== *)
(** * Further properties of ManagerStrategy.categorize                 *)
(* ================================================================== *)

Lemma dict_set_same_value :
  forall (K V : Type) (eqb : K -> K -> bool),
    (forall a b, eqb a b = true <-> a = b) ->
    forall k (v : V) d, dict_get eqb k d = Some v -> dict_set eqb k v d = d.
Proof.
  intros K V eqb Hspec k v d. induction d as [|[k0 v0] d IH]; simpl; [discriminate|].
  destruct (eqb k k0) eqn:E.
  - intros H. inversion H; subst. reflexivity.
  - intros H. rewrite (IH H). reflexivity.
Qed.

Lemma dict_set_twice :
  forall (K V : Type) (eqb : K -> K -> bool),
    (forall a b, eqb a b = true <-> a = b) ->
    forall k (v : V) d, dict_set eqb k v (dict_set eqb k v d) = dict_set eqb k v d.
Proof.
  intros K V eqb Hspec k v d. apply (dict_set_same_value K V eqb Hspec).
  apply (dict_get_set_same eqb Hspec).
Qed.

Lemma dict_setdefault_after_set :
  forall (K V : Type) (eqb : K -> K -> bool),
    (forall a b, eqb a b = true <-> a = b) ->
    forall k (v w : V) d,
      dict_setdefault eqb k w (dict_set eqb k v d) = dict_set eqb k v d.
Proof.
  intros K V eqb Hspec k v w d. unfold dict_setdefault.
  rewrite (dict_get_set_same eqb Hspec). reflexivity.
Qed.

Lemma dict_setdefault_keys :
  forall (V : Type) k (v : V) (d : dict string V),
    dict_keys (dict_setdefault String.eqb k v d) = first_seen (dict_keys d) [k].
Proof.
  intros V k v d. unfold dict_setdefault. simpl.
  destruct (dict_get String.eqb k d) as [w|] eqn:E.
  - assert (H : existsb (String.eqb k) (dict_keys d) = true).
    { destruct (existsb (String.eqb k) (dict_keys d)) eqn:X; [reflexivity|].
      apply dict_get_none_keys in X. congruence. }
    rewrite H. reflexivity.
  - rewrite dict_set_keys. apply dict_get_none_keys in E. rewrite E. reflexivity.
Qed.

Lemma dict_set_present_keys :
  forall (V : Type) k (v w : V) (d : dict string V),
    dict_get String.eqb k d = Some w ->
    dict_keys (dict_set String.eqb k v d) = dict_keys d.
Proof.
  intros V k v w d H. rewrite dict_set_keys.
  destruct (existsb (String.eqb k) (dict_keys d)) eqn:X; [reflexivity|].
  apply dict_get_none_keys in X. congruence.
Qed.

Section CategorizeFacts.
Variable Runner : Type.
Variable CommandRunnerType : Type.
Variable get_enum_from_value : string -> exn + CommandRunnerType.
Variable str_format : string -> string -> exn + string.

(** The plan that [categorize] returns when nothing raises. *)
Lemma categorize_inserts :
  forall (self : ManagerStrategy Runner CommandRunnerType) (command : CommandEntity.t)
         (executable_commands : plan Runner) vm d c kind r,
    find_vm_instances_by_type (vm_repository self) (strategy_vm_type self) = [vm] ->
    str_format (CommandEntity.description command) vm = inr d ->
    str_format (CommandEntity.command command) vm = inr c ->
    get_enum_from_value (CommandEntity.runner command) = inr kind ->
    get_runner (command_runner_factory self) kind = inr r ->
    categorize get_enum_from_value str_format self command executable_commands
    = Return (dict_set String.eqb vm
                (dict_set Z.eqb (CommandEntity.index command)
                   (ExecutableCommandEntity.mk vm d c r)
                   (match dict_get String.eqb vm executable_commands with
                    | Some row => row
                    | None => []
                    end))
                (dict_setdefault String.eqb vm [] executable_commands)).
Proof.
  intros self command executable_commands vm d c kind r Hn Hd Hc Hk Hr.
  unfold categorize. rewrite Hn, Hd, Hc, Hk, Hr. unfold plan_set.
  rewrite (dict_get_setdefault_same _ _ String.eqb string_eqb_spec). reflexivity.
Qed.

(** X14.  With exactly one instance [vm]: when formatting the
    description or the command raises, or the runner kind or the runner
    is not found, [categorize] raises that exception after [setdefault]
    has run: the plan has a row for [vm], empty if it had none before,
    it holds no command it did not hold before, and the rows of the
    other instances are as they were. *)
Theorem categorize_raises_after_setdefault :
  forall (self : ManagerStrategy Runner CommandRunnerType) (command : CommandEntity.t)
         (executable_commands : plan Runner) (vm : string) (e : exn),
    find_vm_instances_by_type (vm_repository self) (strategy_vm_type self) = [vm] ->
    (str_format (CommandEntity.description command) vm = inl e
     \/ (exists d, str_format (CommandEntity.description command) vm = inr d
                   /\ str_format (CommandEntity.command command) vm = inl e)
     \/ (exists d c, str_format (CommandEntity.description command) vm = inr d
                     /\ str_format (CommandEntity.command command) vm = inr c
                     /\ get_enum_from_value (CommandEntity.runner command) = inl e)
     \/ (exists d c kind,
            str_format (CommandEntity.description command) vm = inr d
            /\ str_format (CommandEntity.command command) vm = inr c
            /\ get_enum_from_value (CommandEntity.runner command) = inr kind
            /\ get_runner (command_runner_factory self) kind = inl e)) ->
    exists p',
      categorize get_enum_from_value str_format self command executable_commands
      = Raise e p'
      /\ dict_get String.eqb vm p'
         = Some (match dict_get String.eqb vm executable_commands with
                 | Some row => row
                 | None => []
                 end)
      /\ (forall vm' idx, plan_get vm' idx p' = plan_get vm' idx executable_commands)
      /\ (forall vm', vm' <> vm ->
            dict_get String.eqb vm' p' = dict_get String.eqb vm' executable_commands).
Proof.
  intros self command executable_commands vm e Hn Hfail.
  exists (dict_setdefault String.eqb vm [] executable_commands). split.
  - unfold categorize. rewrite Hn.
    destruct Hfail as [Hd|[(d & Hd & Hc)|[(d & c & Hd & Hc & Hk)|(d & c & k & Hd & Hc & Hk & Hr)]]].
    + rewrite Hd. reflexivity.
    + rewrite Hd, Hc. reflexivity.
    + rewrite Hd, Hc, Hk. reflexivity.
    + rewrite Hd, Hc, Hk, Hr. reflexivity.
  - split; [apply (dict_get_setdefault_same _ _ String.eqb string_eqb_spec)|]. split.
    + intros vm' idx. unfold plan_get. destruct (string_dec vm' vm) as [->|Hne].
      * rewrite (dict_get_setdefault_same _ _ String.eqb string_eqb_spec).
        destruct (dict_get String.eqb vm executable_commands); reflexivity.
      * rewrite (dict_get_setdefault_other String.eqb string_eqb_spec) by exact Hne.
        reflexivity.
    + intros vm' Hne.
      apply (dict_get_setdefault_other String.eqb string_eqb_spec). exact Hne.
Qed.

(** X15.  Categorizing the same template a second time changes nothing:
    a plan that [categorize] has returned is returned as it is when the
    template is categorized again. *)
Theorem categorize_twice_is_once :
  forall (self : ManagerStrategy Runner CommandRunnerType) (command : CommandEntity.t)
         (executable_commands p' : plan Runner),
    categorize get_enum_from_value str_format self command executable_commands = Return p' ->
    categorize get_enum_from_value str_format self command p' = Return p'.
Proof.
  intros self command executable_commands p' H.
  unfold categorize in *.
  destruct (find_vm_instances_by_type (vm_repository self) (strategy_vm_type self))
    as [|vm [|vm2 rest]]; try (inversion H; subst; reflexivity).
  destruct (str_format (CommandEntity.description command) vm) as [e|d]; [discriminate|].
  destruct (str_format (CommandEntity.command command) vm) as [e|c]; [discriminate|].
  destruct (get_enum_from_value (CommandEntity.runner command)) as [e|kind]; [discriminate|].
  destruct (get_runner (command_runner_factory self) kind) as [e|r]; [discriminate|].
  unfold plan_set in *.
  rewrite (dict_get_setdefault_same _ _ String.eqb string_eqb_spec) in H.
  inversion H as [Hp]. clear H. subst p'.
  rewrite (dict_setdefault_after_set _ _ String.eqb string_eqb_spec).
  rewrite (dict_get_set_same String.eqb string_eqb_spec).
  rewrite (dict_set_twice _ _ Z.eqb Z_eqb_spec).
  rewrite (dict_set_twice _ _ String.eqb string_eqb_spec).
  reflexivity.
Qed.

(** X16.  With exactly one instance [vm], whether [categorize] returns
    or raises, the instances of the plan keep their order, and [vm]
    comes last if the plan had no row for it: the order of the rows is
    the order in which the instances were first reached. *)
Theorem categorize_keeps_instance_order :
  forall (self : ManagerStrategy Runner CommandRunnerType) (command : CommandEntity.t)
         (executable_commands : plan Runner) (vm : string),
    find_vm_instances_by_type (vm_repository self) (strategy_vm_type self) = [vm] ->
    dict_keys (state_of (categorize get_enum_from_value str_format self command
                                    executable_commands))
    = first_seen (dict_keys executable_commands) [vm].
Proof.
  intros self command executable_commands vm Hn. unfold categorize. rewrite Hn.
  destruct (str_format (CommandEntity.description command) vm) as [e|d];
    [apply dict_setdefault_keys|].
  destruct (str_format (CommandEntity.command command) vm) as [e|c];
    [apply dict_setdefault_keys|].
  destruct (get_enum_from_value (CommandEntity.runner command)) as [e|kind];
    [apply dict_setdefault_keys|].
  destruct (get_runner (command_runner_factory self) kind) as [e|r];
    [apply dict_setdefault_keys|].
  unfold plan_set.
  rewrite (dict_get_setdefault_same _ _ String.eqb string_eqb_spec).
  unfold state_of.
  rewrite (dict_set_present_keys _ _ _ _ _
             (dict_get_setdefault_same _ _ String.eqb string_eqb_spec vm [] executable_commands)).
  apply dict_setdefault_keys.
Qed.

(** X17.  With exactly one instance [vm] and two templates that both
    resolve: after the first and then the second are categorized, the
    plan holds the command of the second at its index, and still holds
    the command of the first at its index unless the two indexes are
    equal; with equal indexes the later template replaces the earlier. *)
Theorem categorize_later_template_wins :
  forall (self : ManagerStrategy Runner CommandRunnerType)
         (first second : CommandEntity.t) (executable_commands : plan Runner)
         vm d1 c1 kind1 r1 d2 c2 kind2 r2,
    find_vm_instances_by_type (vm_repository self) (strategy_vm_type self) = [vm] ->
    str_format (CommandEntity.description first) vm = inr d1 ->
    str_format (CommandEntity.command first) vm = inr c1 ->
    get_enum_from_value (CommandEntity.runner first) = inr kind1 ->
    get_runner (command_runner_factory self) kind1 = inr r1 ->
    str_format (CommandEntity.description second) vm = inr d2 ->
    str_format (CommandEntity.command second) vm = inr c2 ->
    get_enum_from_value (CommandEntity.runner second) = inr kind2 ->
    get_runner (command_runner_factory self) kind2 = inr r2 ->
    exists p1 p2,
      categorize get_enum_from_value str_format self first executable_commands = Return p1
      /\ categorize get_enum_from_value str_format self second p1 = Return p2
      /\ plan_get vm (CommandEntity.index second) p2
         = Some (ExecutableCommandEntity.mk vm d2 c2 r2)
      /\ (CommandEntity.index first <> CommandEntity.index second ->
          plan_get vm (CommandEntity.index first) p2
          = Some (ExecutableCommandEntity.mk vm d1 c1 r1)).
Proof.
  intros self first second executable_commands vm d1 c1 kind1 r1 d2 c2 kind2 r2
         Hn Hd1 Hc1 Hk1 Hr1 Hd2 Hc2 Hk2 Hr2.
  eexists. eexists.
  split; [apply (categorize_inserts self first executable_commands vm d1 c1 kind1 r1); assumption|].
  split; [apply (categorize_inserts self second _ vm d2 c2 kind2 r2); assumption|].
  split.
  - unfold plan_get. rewrite (dict_get_set_same String.eqb string_eqb_spec).
    apply (dict_get_set_same Z.eqb Z_eqb_spec).
  - intros Hne. unfold plan_get. rewrite (dict_get_set_same String.eqb string_eqb_spec).
    rewrite (dict_get_set_other Z.eqb Z_eqb_spec) by exact Hne.
    rewrite (dict_get_set_same String.eqb string_eqb_spec).
    apply (dict_get_set_same Z.eqb Z_eqb_spec).
Qed.
End CategorizeFacts.

Lemma categorize_raises_after_setdefault_witness :
  exists p',
    categorize enum_of_value format_vm_instance strategy_one_manager broken_template []
    = Raise (ValueError "unknown-kind") p'
    /\ dict_get String.eqb "mgr-1" p' = Some []
    /\ (forall vm' idx, plan_get vm' idx p' = None).
Proof.
  destruct (categorize_raises_after_setdefault string string enum_of_value
              format_vm_instance strategy_one_manager broken_template [] "mgr-1"
              (ValueError "unknown-kind") eq_refl)
    as (p' & Hret & Hrow & Hcmd & _).
  - right. right. left. exists "greet mgr-1", "echo mgr-1". repeat split.
  - exists p'. split; [exact Hret|]. split; [exact Hrow|exact Hcmd].
Defined.

Lemma categorize_twice_is_once_witness :
  exists p',
    categorize enum_of_value format_vm_instance strategy_one_manager echo_template []
    = Return p'
    /\ categorize enum_of_value format_vm_instance strategy_one_manager echo_template p'
       = Return p'.
Proof.
  eexists. split; [reflexivity|].
  apply (categorize_twice_is_once string string enum_of_value format_vm_instance
           strategy_one_manager echo_template []).
  reflexivity.
Defined.

Lemma categorize_keeps_instance_order_witness :
  dict_keys (state_of (categorize enum_of_value format_vm_instance strategy_one_manager
                                  echo_template [("wrk-1", [])]))
  = ["wrk-1"; "mgr-1"].
Proof.
  apply (categorize_keeps_instance_order string string enum_of_value format_vm_instance
           strategy_one_manager echo_template [("wrk-1", [])] "mgr-1").
  reflexivity.
Defined.

Lemma categorize_later_template_wins_witness :
  exists p1 p2,
    categorize enum_of_value format_vm_instance strategy_one_manager echo_template []
    = Return p1
    /\ categorize enum_of_value format_vm_instance strategy_one_manager install_template p1
       = Return p2
    /\ plan_get "mgr-1" 3 p2
       = Some (ExecutableCommandEntity.mk "mgr-1" "install on mgr-1" "apt install mgr-1"
                                          "multipass").
Proof.
  destruct (categorize_later_template_wins string string enum_of_value format_vm_instance
              strategy_one_manager echo_template install_template [] "mgr-1"
              "greet mgr-1" "echo mgr-1" "multipass" "multipass"
              "install on mgr-1" "apt install mgr-1" "multipass" "multipass"
              eq_refl eq_refl eq_refl eq_refl eq_refl eq_refl eq_refl eq_refl eq_refl)
    as (p1 & p2 & H1 & H2 & Hget & _).
  exists p1, p2. split; [exact H1|]. split; [exact H2|exact Hget].
Defined.

(** X18.  With [str.format] on templates made of text without braces
    around one [{vm_instance}], and exactly one instance [vm], the
    command that [categorize] stores has the name of the instance in the
    place of the placeholder, in the description and in the command. *)
Theorem categorize_substitutes_instance_name :
  forall (Runner CommandRunnerType : Type)
         (get_enum_from_value : string -> exn + CommandRunnerType)
         (self : ManagerStrategy Runner CommandRunnerType)
         (idx : Z) (d_before d_after c_before c_after runner_value vm : string)
         (kind : CommandRunnerType) (r : Runner) (executable_commands : plan Runner),
    find_vm_instances_by_type (vm_repository self) (strategy_vm_type self) = [vm] ->
    brace_free d_before = true -> brace_free d_after = true ->
    brace_free c_before = true -> brace_free c_after = true ->
    get_enum_from_value runner_value = inr kind ->
    get_runner (command_runner_factory self) kind = inr r ->
    exists p',
      categorize get_enum_from_value format_vm_instance self
                 (CommandEntity.mk idx (d_before ++ "{vm_instance}" ++ d_after)
                                   (c_before ++ "{vm_instance}" ++ c_after) runner_value)
                 executable_commands
      = Return p'
      /\ plan_get vm idx p'
         = Some (ExecutableCommandEntity.mk vm (d_before ++ vm ++ d_after)%string
                                            (c_before ++ vm ++ c_after)%string r).
Proof.
  intros Runner CommandRunnerType get_enum_from_value self idx d_before d_after
         c_before c_after runner_value vm kind r executable_commands
         Hn Hdb Hda Hcb Hca Hk Hr.
  eexists. split.
  - apply (categorize_inserts Runner CommandRunnerType get_enum_from_value
             format_vm_instance self _ executable_commands vm
             (d_before ++ vm ++ d_after)%string (c_before ++ vm ++ c_after)%string kind r);
      try assumption.
    + apply format_vm_instance_substitutes; assumption.
    + apply format_vm_instance_substitutes; assumption.
  - unfold plan_get. rewrite (dict_get_set_same String.eqb string_eqb_spec).
    apply (dict_get_set_same Z.eqb Z_eqb_spec).
Qed.

Lemma categorize_substitutes_instance_name_witness :
  exists p',
    categorize enum_of_value format_vm_instance strategy_one_manager
               (CommandEntity.mk 7 "shell on {vm_instance}."
                                 "multipass shell {vm_instance} --now" "multipass") []
    = Return p'
    /\ plan_get "mgr-1" 7 p'
       = Some (ExecutableCommandEntity.mk "mgr-1" "shell on mgr-1."
                                          "multipass shell mgr-1 --now" "multipass").
Proof.
  apply (categorize_substitutes_instance_name string string enum_of_value
           strategy_one_manager 7 "shell on " "." "multipass shell " " --now"
           "multipass" "mgr-1" "multipass" "multipass" []); reflexivity.
Defined.

(* ================================================================== *)
(** * Further properties of the command runner                         *)
(* ================================================================== *)

Section RunnerFacts.
Variable Runner : Type.
Variable Action : Type.
Variable Value : Type.
Variable Failure : Type.
Variable execute : dict Z (ExecutableCommandEntity.t Runner)
                   -> Coroutine Action Value Failure.

Lemma drain_take_one :
  forall (pending : list (list Action)) k j a rest,
    nth_error pending j = Some (a :: rest) ->
    Permutation (drain k pending)
                (TaskAction (k + j) a :: drain k (list_update j (fun _ => rest) pending)).
Proof.
  induction pending as [|acts pending IH]; intros k [|j] a rest H; simpl in *;
    try discriminate.
  - inversion H; subst. simpl. rewrite Nat.add_0_r. reflexivity.
  - specialize (IH (S k) j a rest H).
    replace (k + S j) with (S k + j) by lia.
    rewrite IH. symmetry. apply Permutation_middle.
Qed.

Lemma event_loop_permutation :
  forall schedule (pending : list (list Action)),
    Permutation (event_loop schedule pending) (drain 0 pending).
Proof.
  induction schedule as [|j schedule IH]; intros pending; simpl; [reflexivity|].
  destruct (nth_error pending j) as [[|a rest]|] eqn:Hj; try apply IH.
  rewrite (drain_take_one pending 0 j a rest Hj). simpl.
  apply perm_skip. apply IH.
Qed.

(** X19.  Between the start of the UI and the status update, the trace
    of [run] holds the actions of the coroutines of the instances, each
    action once, and nothing else, whatever the schedule: the schedule
    only decides their order. *)
Theorem run_performs_each_action_once :
  forall (command_list : plan Runner) (schedule : list nat),
    exists tasks body,
      create_tasks execute command_list (dict_keys command_list) = inr tasks
      /\ run execute schedule (runner_init command_list)
         = (StartInThread :: body ++ [UpdateStatus terminal_status; AwaitUiThread],
            inr (map completion tasks))
      /\ Permutation body (drain 0 (map actions tasks))
      /\ List.length body = List.length (List.concat (map actions tasks)).
Proof.
  intros command_list schedule.
  destruct (create_tasks_of_keys Runner Action Value Failure execute command_list
              (dict_keys command_list)) as (tasks & Htasks & _); [auto|].
  exists tasks, (event_loop schedule (map actions tasks)).
  split; [exact Htasks|]. split.
  - unfold run, runner_init, gather; simpl. rewrite Htasks. reflexivity.
  - pose proof (event_loop_permutation schedule (map actions tasks)) as Hperm.
    split; [exact Hperm|].
    rewrite (Permutation_length Hperm).
    generalize 0. generalize (map actions tasks). clear.
    induction l as [|acts l IH]; intros k; simpl; [reflexivity|].
    rewrite !length_app, length_map, IH. reflexivity.
Qed.

End RunnerFacts.

Section MultipassInitVmsFacts.
Variable Runner : Type.
Variable Action : Type.
Variable Value : Type.
Variable Failure : Type.
Variable execute : dict Z (ExecutableCommandEntity.t Runner)
                   -> Coroutine Action Value Failure.

(** X20.  [MultipassInitVms.run] ends with an exception only when the
    building of a plan raises: of the clean-up plan, and then nothing
    has run; or of the initialisation plan, and then the clean-up phase
    has run in full.  When both plans are built, it runs the clean-up
    phase and then the initialisation phase and ends without an
    exception, whatever the coroutines of either phase end with: the
    trace is the whole trace of the clean-up followed by the whole trace
    of the initialisation, and the status updates that
    [CommandRunnerUI.run] itself emits in it are two, both with result
    [success].  What the executer reports to the UI belongs to the
    actions of the coroutines and is not among them. *)
Theorem multipass_init_vms_run_phases :
  forall (_setup_commands_init : string -> exn + plan Runner)
         (schedule_clean schedule_init : list nat),
    let whole :=
      multipass_init_vms_run execute _setup_commands_init schedule_clean schedule_init in
    (forall e,
        _setup_commands_init "command_multipass_clean_repository_yaml.yaml" = inl e ->
        whole = ([], Some e))
    /\ (forall plan_clean,
           _setup_commands_init "command_multipass_clean_repository_yaml.yaml"
           = inr plan_clean ->
           exists trace_clean results_clean,
             run execute schedule_clean (runner_init plan_clean)
             = (trace_clean, inr results_clean)
             /\ (forall e,
                    _setup_commands_init "command_multipass_init_repository_yaml.yaml"
                    = inl e ->
                    whole = (trace_clean, Some e))
             /\ (forall plan_init,
                    _setup_commands_init "command_multipass_init_repository_yaml.yaml"
                    = inr plan_init ->
                    exists trace_init results_init,
                      run execute schedule_init (runner_init plan_init)
                      = (trace_init, inr results_init)
                      /\ whole = (trace_clean ++ trace_init, None)
                      /\ status_updates (trace_clean ++ trace_init)
                         = [terminal_status; terminal_status])).
Proof.
  intros setup schedule_clean schedule_init whole. split.
  - intros e He. unfold whole, multipass_init_vms_run. rewrite He. reflexivity.
  - intros plan_clean Hclean.
    destruct (run_terminal_trace Runner Action Value Failure execute plan_clean
                schedule_clean) as (body1 & results1 & Hrun1 & Hbody1).
    eexists. eexists. split; [exact Hrun1|]. split.
    + intros e He. unfold whole, multipass_init_vms_run.
      rewrite Hclean, Hrun1, He. reflexivity.
    + intros plan_init Hinit.
      destruct (run_terminal_trace Runner Action Value Failure execute plan_init
                  schedule_init) as (body2 & results2 & Hrun2 & Hbody2).
      eexists. eexists. split; [exact Hrun2|]. split.
      * unfold whole, multipass_init_vms_run.
        rewrite Hclean, Hrun1, Hinit, Hrun2. reflexivity.
      * simpl. rewrite !status_updates_app, Hbody1. simpl.
        rewrite status_updates_app, Hbody2. reflexivity.
Qed.
End MultipassInitVmsFacts.

Lemma multipass_init_vms_run_phases_witness :
  multipass_init_vms_run execute_a_fails setup_commands_a_b [1; 0] []
  = ([StartInThread; TaskAction 1 "cmd3"; TaskAction 0 "cmd1";
      UpdateStatus terminal_status; AwaitUiThread;
      StartInThread; TaskAction 0 "cmd4";
      UpdateStatus terminal_status; AwaitUiThread],
     None)
  /\ multipass_init_vms_run execute_a_fails
       (fun _ : string => inl (ValueError "no catalog")) [1; 0] []
     = ([], Some (ValueError "no catalog")).
Proof.
  split.
  - destruct (multipass_init_vms_run_phases string string string string execute_a_fails
                setup_commands_a_b [1; 0] []) as (_ & Hclean).
    destruct (Hclean plan_a_b eq_refl) as (trace_clean & results_clean & Hrun1 & _ & Hinit).
    destruct (Hinit [("b", [(1%Z, ExecutableCommandEntity.mk "b" "launch" "cmd4" "multipass")])]
                    eq_refl) as (trace_init & results_init & Hrun2 & Hwhole & _).
    rewrite Hwhole. inversion Hrun1; subst. inversion Hrun2; subst. reflexivity.
  - destruct (multipass_init_vms_run_phases string string string string execute_a_fails
                (fun _ : string => inl (ValueError "no catalog")) [1; 0] []) as (Hfail & _).
    apply (Hfail (ValueError "no catalog")). reflexivity.
Defined.


(* ================================================================== *)
(** * Further properties of loading                                    *)
(* ================================================================== *)

Lemma size_set_value : forall v n, size (set_value v n) = size n.
Proof. intros v [nm w cs]. reflexivity. Qed.

Lemma parse_dict_to_tree_size :
  forall d b t,
    cursor_in_tree b -> root b = Some t ->
    exists b' t',
      _parse_dict_to_tree d b = Return b'
      /\ cursor_in_tree b' /\ root b' = Some t'
      /\ size t' = size t + List.length (all_keys d).
Proof.
  assert (Hset : forall v b t,
             cursor_in_tree b -> root b = Some t ->
             exists b' t', set_current_value v b = Return b'
                           /\ cursor_in_tree b' /\ root b' = Some t' /\ size t' = size t).
  { intros v b t Hb Hr.
    destruct (set_current_value_keeps_cursor v b Hb) as (b' & Hret & Hb' & _).
    destruct Hb as (t0 & p & n & Hr0 & Hc & Hg).
    rewrite Hr in Hr0. inversion Hr0; subst t0.
    exists b', (update (set_value v) p t). split; [exact Hret|]. split; [exact Hb'|].
    unfold set_current_value in Hret. rewrite Hr, Hc, Hg in Hret. inversion Hret; subst.
    split; [reflexivity|].
    pose proof (size_update (set_value v) p t n Hg) as Hs.
    rewrite size_set_value in Hs. lia. }
  assert (Hadd : forall key b t,
             cursor_in_tree b -> root b = Some t ->
             exists b' t', add_child key (DScalar SNone) true b = Return b'
                           /\ cursor_in_tree b' /\ root b' = Some t'
                           /\ size t' = S (size t)).
  { intros key b t Hb Hr.
    destruct (add_child_keeps_cursor key (DScalar SNone) true b Hb) as (b' & Hret & Hb' & _).
    destruct Hb as (t0 & p & n & Hr0 & Hc & Hg).
    rewrite Hr in Hr0. inversion Hr0; subst t0.
    exists b', (update (node_add_child key (DScalar SNone)) p t).
    split; [exact Hret|]. split; [exact Hb'|].
    unfold add_child in Hret. rewrite Hr, Hc, Hg in Hret. inversion Hret; subst.
    split; [reflexivity|].
    pose proof (size_update (node_add_child key (DScalar SNone)) p t n Hg) as Hs.
    assert (Hn : size (node_add_child key (DScalar SNone) n) = S (size n)).
    { destruct n as [x y cs]. unfold node_add_child. simpl name. simpl value.
      simpl children. rewrite !size_node, size_children_app. simpl. lia. }
    lia. }
  induction d as [s|l _|m IH] using pyvalue_tree_ind; intros b t Hb Hr.
  - destruct (Hset (VYaml (DScalar s)) b t Hb Hr) as (b' & t' & H1 & H2 & H3 & H4).
    exists b', t'. repeat split; try assumption. simpl. lia.
  - destruct (Hset (VList l) b t Hb Hr) as (b' & t' & H1 & H2 & H3 & H4).
    exists b', t'. repeat split; try assumption. simpl. lia.
  - rewrite parse_dict_map. change (all_keys (DMap m)) with (all_keys_items m).
    revert b t Hb Hr. induction IH as [|[key v] m Hv _ IHm]; intros b t Hb Hr.
    + exists b, t. repeat split; try assumption. simpl. lia.
    + simpl in Hv.
      destruct (Hadd key b t Hb Hr) as (b1 & t1 & H1 & Hb1 & Hr1 & Hs1).
      destruct (Hv b1 t1 Hb1 Hr1) as (b2 & t2 & H2 & Hb2 & Hr2 & Hs2).
      destruct (up_keeps_cursor b2 Hb2) as (b3 & H3 & Hb3 & Hr3).
      rewrite Hr2 in Hr3.
      destruct (IHm b3 t2 Hb3 Hr3) as (b4 & t4 & H4 & Hb4 & Hr4 & Hs4).
      exists b4, t4. split; [simpl; rewrite H1, H2, H3; exact H4|].
      split; [exact Hb4|]. split; [exact Hr4|].
      simpl all_keys_items. simpl List.length. rewrite length_app. lia.
Qed.

(** X22.  Loading a document whose first key is the name of the root
    into a builder whose cursor is in the tree adds exactly one node for
    every key of the document beneath that key, at all depths together,
    and keeps the name of the root. *)
Theorem load_adds_one_node_per_key :
  forall (t : YAMLNode) (p : path) (n : YAMLNode) (v : pyvalue)
         (rest : list (string * pyvalue)),
    get t p = Some n ->
    exists b' t',
      load_from_data (DMap ((name t, v) :: rest)) (mkBuilder (Some t) (Some p)) = Return b'
      /\ root b' = Some t'
      /\ size t' = size t + List.length (all_keys v)
      /\ name t' = name t.
Proof.
  intros t p n v rest Hg. unfold load_from_data. simpl. rewrite String.eqb_refl. simpl.
  assert (Hb : cursor_in_tree (mkBuilder (Some t) (Some p)))
    by (exists t, p, n; repeat split; exact Hg).
  destruct (parse_dict_to_tree_size v (mkBuilder (Some t) (Some p)) t Hb eq_refl)
    as (b' & t' & Hret & _ & Hr & Hs).
  destruct (parse_dict_to_tree_returns v (mkBuilder (Some t) (Some p)) Hb)
    as (b'' & Hret' & _ & Hname).
  rewrite Hret in Hret'. inversion Hret'; subst b''.
  exists b', t'. split; [exact Hret|]. split; [exact Hr|]. split; [exact Hs|].
  unfold root_name in Hname. rewrite Hr in Hname. simpl in Hname. congruence.
Qed.

Lemma load_adds_one_node_per_key_witness :
  exists b' t',
    load_from_data (DMap [("root", DMap [("x", DScalar (SInt 1)); ("y", DMap [])])])
                   (mkBuilder (Some tree_a_b) (Some [0; 0])) = Return b'
    /\ root b' = Some t'
    /\ size t' = 5
    /\ name t' = "root".
Proof.
  apply (load_adds_one_node_per_key tree_a_b [0; 0] (Node "b" VNone [])
           (DMap [("x", DScalar (SInt 1)); ("y", DMap [])]) []).
  reflexivity.
Defined.
